(** * Button classifier and LED blink driver (FreeRTOS, Task 3)

    A shallow embedding of [main.c]: the two task functions [ledToggle] and
    [buttonCheck], the global [pushButtonState] they share, and [main].

    Task code is written in a small monad of task programs whose primitive
    calls are the ones the C code makes: [GPIO_read], [GPIO_write],
    [vTaskDelay], and the read and the write of the global.  Two semantics
    are given to these programs:

    - [exec], a timed run of one task on its own: a call takes no time
      and [vTaskDelay n] lasts exactly [n] ticks (one tick is one
      millisecond), while the rest of the system may change the shared
      global only when the task is blocked;
    - [sys_step], the interleaving of both tasks under an arbitrary
      scheduler, where a delay lasts at least the requested ticks. *)

From Stdlib Require Import ZArith List Bool Lia String.
Import ListNotations.
Open Scope Z_scope.

(** ** Data of the source *)

(** [enum pushButtonStates], main.c lines 78-82. *)
Inductive pushButtonStates : Type :=
| lessThanTwoSecs
| lessThanFourSecs
| moreThanFourSecs.

(** Modelled from the spec: GPIO.h is not among the sources.  A line is
    read as one of two levels and written with one of two levels. *)
Inductive pinState_t : Type :=
| PIN_IS_LOW
| PIN_IS_HIGH.

(** Modelled from the spec: GPIO.h is not among the sources.  Only
    [PORT_0], [PIN0] (the LED) and [PIN1] (the button) occur in main.c. *)
Inductive portX_t : Type :=
| PORT_0
| PORT_1.

Inductive pinX_t : Type :=
| PIN0
| PIN1
| PIN2
| PIN3.

Definition pinState_eqb (a b : pinState_t) : bool :=
  match a, b with
  | PIN_IS_LOW, PIN_IS_LOW | PIN_IS_HIGH, PIN_IS_HIGH => true
  | _, _ => false
  end.

Definition portX_eqb (a b : portX_t) : bool :=
  match a, b with
  | PORT_0, PORT_0 | PORT_1, PORT_1 => true
  | _, _ => false
  end.

Definition pinX_eqb (a b : pinX_t) : bool :=
  match a, b with
  | PIN0, PIN0 | PIN1, PIN1 | PIN2, PIN2 | PIN3, PIN3 => true
  | _, _ => false
  end.

(* The specification calls the three enumerators Short, Medium and Long,
   in this order, and calls the button line Asserted when it reads
   PIN_IS_LOW (main.c line 142: "button is pressed") and Deasserted when
   it reads PIN_IS_HIGH. *)

(** [(uint32_t) pvParameters]: a pointer value truncated to 32 bits. *)
Definition uint32_t (v : Z) : Z := v mod 2 ^ 32.

(** ** Task programs *)

(** A task program is a tree of the calls it makes; each call carries the
    rest of the program.  [Halt] is a task stopped by a failed
    assertion. *)
Inductive task (A : Type) : Type :=
| Ret (a : A)
| ReadPin (port : portX_t) (pin : pinX_t) (k : pinState_t -> task A)
| WritePin (port : portX_t) (pin : pinX_t) (v : pinState_t) (k : task A)
| Delay (xTicksToDelay : Z) (k : task A)
| GetState (k : pushButtonStates -> task A)
| SetState (v : pushButtonStates) (k : task A)
| Halt.

Arguments Ret {A} a.
Arguments ReadPin {A} port pin k.
Arguments WritePin {A} port pin v k.
Arguments Delay {A} xTicksToDelay k.
Arguments GetState {A} k.
Arguments SetState {A} v k.
Arguments Halt {A}.

Fixpoint bind {A B : Type} (p : task A) (f : A -> task B) : task B :=
  match p with
  | Ret a => f a
  | ReadPin port pin k => ReadPin port pin (fun v => bind (k v) f)
  | WritePin port pin v k => WritePin port pin v (bind k f)
  | Delay n k => Delay n (bind k f)
  | GetState k => GetState (fun v => bind (k v) f)
  | SetState v k => SetState v (bind k f)
  | Halt => Halt
  end.

Declare Scope task_scope.
Delimit Scope task_scope with task.
Notation "x <- c ;; k" := (bind c (fun x => k))
  (at level 61, c at next level, right associativity) : task_scope.
Notation "c ;; k" := (bind c (fun _ => k))
  (at level 61, right associativity) : task_scope.
Open Scope task_scope.

Definition GPIO_read (port : portX_t) (pin : pinX_t) : task pinState_t :=
  ReadPin port pin Ret.

Definition GPIO_write (port : portX_t) (pin : pinX_t) (v : pinState_t)
  : task unit :=
  WritePin port pin v (Ret tt).

Definition vTaskDelay (xTicksToDelay : Z) : task unit :=
  Delay xTicksToDelay (Ret tt).

(** The switch on the global [pushButtonState] reads it once. *)
Definition read_pushButtonState : task pushButtonStates :=
  GetState Ret.

(** [pushButtonState = v;] *)
Definition set_pushButtonState (v : pushButtonStates) : task unit :=
  SetState v (Ret tt).

(** Modelled from the spec: FreeRTOSConfig.h, which defines [configASSERT],
    is not among the sources.  A failed assertion stops the task. *)
Definition configASSERT (x : bool) : task unit :=
  if x then Ret tt else Halt.

(** ** The two task functions *)

(** One pass of the [for( ;; )] loop of [ledToggle], main.c lines
    105-132. *)
Definition ledToggle_pass : task unit :=
  s <- read_pushButtonState ;;
  match s with
  | lessThanTwoSecs =>
      GPIO_write PORT_0 PIN0 PIN_IS_LOW
  | lessThanFourSecs =>
      GPIO_write PORT_0 PIN0 PIN_IS_HIGH ;;
      vTaskDelay 400 ;;
      GPIO_write PORT_0 PIN0 PIN_IS_LOW ;;
      vTaskDelay 400
  | moreThanFourSecs =>
      GPIO_write PORT_0 PIN0 PIN_IS_HIGH ;;
      vTaskDelay 100 ;;
      GPIO_write PORT_0 PIN0 PIN_IS_LOW ;;
      vTaskDelay 100
  end.

(** One pass of the [while (1)] loop of [buttonCheck], main.c lines
    141-171.  The local [button] is assigned by every read before it is
    tested, so its initial value 0 is never observed. *)
Definition buttonCheck_pass : task unit :=
  button <- GPIO_read PORT_0 PIN1 ;;
  if pinState_eqb button PIN_IS_LOW then
    vTaskDelay 2000 ;;
    button <- GPIO_read PORT_0 PIN1 ;;
    if pinState_eqb button PIN_IS_LOW then
      vTaskDelay 2000 ;;
      button <- GPIO_read PORT_0 PIN1 ;;
      if pinState_eqb button PIN_IS_LOW then
        set_pushButtonState moreThanFourSecs
      else
        set_pushButtonState lessThanFourSecs ;;
        vTaskDelay 2000
    else
      set_pushButtonState lessThanTwoSecs
  else
    set_pushButtonState lessThanTwoSecs.

(** A task function: the code run once on entry, given [pvParameters],
    and the body of its endless loop. *)
Record TaskFunction_t : Type := mkTaskFunction {
  prologue : Z -> task unit;
  loop_body : task unit
}.

Definition ledToggle : TaskFunction_t :=
  {| prologue := fun pvParameters =>
       configASSERT (uint32_t pvParameters =? 1);
     loop_body := ledToggle_pass |}.

Definition buttonCheck : TaskFunction_t :=
  {| prologue := fun pvParameters =>
       configASSERT (uint32_t pvParameters =? 1);
     loop_body := buttonCheck_pass |}.

(** ** Timed run of one task *)

(** What a task does, as seen from outside. *)
Inductive event : Type :=
| EvRead (port : portX_t) (pin : pinX_t) (v : pinState_t)
| EvWrite (port : portX_t) (pin : pinX_t) (v : pinState_t)
| EvDelay (xTicksToDelay : Z)
| EvGet (v : pushButtonStates)
| EvSet (v : pushButtonStates).

(** An event with the tick at which the call was made. *)
Definition stamped : Type := (Z * event)%type.

Record world : Type := mkWorld {
  xTickCount : Z;
  pushButtonState : pushButtonStates;
  latch : portX_t -> pinX_t -> pinState_t
}.

(** What surrounds the running task: the level of every input line at
    every tick, and the value the other tasks leave in the shared global
    when the task resumes at a given tick, from the value it held when
    the task blocked. *)
Record environment : Type := mkEnvironment {
  level : portX_t -> pinX_t -> Z -> pinState_t;
  other_tasks : Z -> pushButtonStates -> pushButtonStates
}.

(** No other task writes the global. *)
Definition quiet (E : environment) : Prop :=
  forall t s, other_tasks E t s = s.

Definition set_latch (port : portX_t) (pin : pinX_t) (v : pinState_t)
  (l : portX_t -> pinX_t -> pinState_t) : portX_t -> pinX_t -> pinState_t :=
  fun port' pin' =>
    if portX_eqb port port' && pinX_eqb pin pin' then v else l port' pin'.

Record outcome (A : Type) : Type := mkOutcome {
  trace : list stamped;
  final : world;
  value : option A
}.

Arguments mkOutcome {A} trace final value.
Arguments trace {A} o.
Arguments final {A} o.
Arguments value {A} o.

Definition emit {A : Type} (e : stamped) (o : outcome A) : outcome A :=
  mkOutcome (e :: trace o) (final o) (value o).

Fixpoint exec {A : Type} (E : environment) (p : task A) (w : world)
  : outcome A :=
  match p with
  | Ret a => mkOutcome [] w (Some a)
  | ReadPin port pin k =>
      let v := level E port pin (xTickCount w) in
      emit (xTickCount w, EvRead port pin v) (exec E (k v) w)
  | WritePin port pin v k =>
      emit (xTickCount w, EvWrite port pin v)
        (exec E k (mkWorld (xTickCount w) (pushButtonState w)
                     (set_latch port pin v (latch w))))
  | Delay n k =>
      let t := xTickCount w + n in
      emit (xTickCount w, EvDelay n)
        (exec E k (mkWorld t (other_tasks E t (pushButtonState w))
                     (latch w)))
  | GetState k =>
      emit (xTickCount w, EvGet (pushButtonState w))
        (exec E (k (pushButtonState w)) w)
  | SetState v k =>
      emit (xTickCount w, EvSet v)
        (exec E k (mkWorld (xTickCount w) v (latch w)))
  | Halt => mkOutcome [] w None
  end.

(** The first [n] passes of an endless loop. *)
Fixpoint passes (E : environment) (body : task unit) (n : nat) (w : world)
  : outcome unit :=
  match n with
  | O => mkOutcome [] w (Some tt)
  | S n' =>
      let o := exec E body w in
      match value o with
      | Some _ =>
          let o' := passes E body n' (final o) in
          mkOutcome (trace o ++ trace o') (final o') (value o')
      | None => o
      end
  end.

(** The values written to the global, oldest first. *)
Fixpoint stores (tr : list stamped) : list pushButtonStates :=
  match tr with
  | [] => []
  | (_, EvSet v) :: tr' => v :: stores tr'
  | _ :: tr' => stores tr'
  end.

(** The events without their ticks. *)
Definition actions (tr : list stamped) : list event := map snd tr.

(** ** The entry point *)

(** The arguments of one call of [xTaskCreate]. *)
Inductive TaskHandle_t : Type :=
| ledToggleHandler
| buttonCheckHandler.

Record xTaskCreate_args : Type := mkArgs {
  pxTaskCode : TaskFunction_t;
  pcName : string;
  usStackDepth : Z;
  pvParameters : Z;
  uxPriority : Z;
  pxCreatedTask : TaskHandle_t
}.

(** main.c lines 191-198. *)
Definition create_ledToggle : xTaskCreate_args :=
  mkArgs ledToggle "LED Toggle" 90 1 1 ledToggleHandler.

(** main.c lines 200-207. *)
Definition create_buttonCheck : xTaskCreate_args :=
  mkArgs buttonCheck "button Check" 90 1 2 buttonCheckHandler.

(** Whether the heap has room for each task that is to be created: the
    two of [main] and the idle task of the scheduler. *)
Record heap_t : Type := mkHeap {
  fits_ledToggle : bool;
  fits_buttonCheck : bool;
  fits_idle : bool
}.

(** Where control is in [main].  [returned] is the exit of the function;
    the source has no [return] statement. *)
Inductive main_pc : Type :=
| at_prvSetupHardware
| at_xTaskCreate_ledToggle
| at_xTaskCreate_buttonCheck
| at_vTaskStartScheduler
| in_scheduler
| at_for_ever
| returned (v : Z).

Record main_state : Type := mkMain {
  pc : main_pc;
  created : list xTaskCreate_args
}.

(** Modelled from the spec: the scheduler (tasks.c) is not among the
    sources.  [xTaskCreate] creates the task when the heap has room for
    it; [vTaskStartScheduler] comes back to its caller only when the idle
    task could not be created, and otherwise keeps the processor for the
    tasks. *)
Definition xTaskCreate (fits : bool) (a : xTaskCreate_args)
  (l : list xTaskCreate_args) : list xTaskCreate_args :=
  if fits then l ++ [a] else l.

Definition vTaskStartScheduler (H : heap_t) : main_pc :=
  if fits_idle H then in_scheduler else at_for_ever.

(** One statement of [main], lines 183-225. *)
Definition main_step (H : heap_t) (m : main_state) : main_state :=
  match pc m with
  | at_prvSetupHardware =>
      mkMain at_xTaskCreate_ledToggle (created m)
  | at_xTaskCreate_ledToggle =>
      mkMain at_xTaskCreate_buttonCheck
        (xTaskCreate (fits_ledToggle H) create_ledToggle (created m))
  | at_xTaskCreate_buttonCheck =>
      mkMain at_vTaskStartScheduler
        (xTaskCreate (fits_buttonCheck H) create_buttonCheck (created m))
  | at_vTaskStartScheduler =>
      mkMain (vTaskStartScheduler H) (created m)
  | in_scheduler => m
  | at_for_ever => m
  | returned v => m
  end.

Definition main_entry : main_state := mkMain at_prvSetupHardware [].

Fixpoint main (H : heap_t) (steps : nat) : main_state :=
  match steps with
  | O => main_entry
  | S n => main_step H (main H n)
  end.

(** ** Both tasks under a scheduler *)

(** A created task: the body of its loop, its priority, what is left of
    its current pass, and the tick from which it is ready again. *)
Record TCB_t : Type := mkTCB {
  task_loop : task unit;
  priority : Z;
  code : task unit;
  wake : Z
}.

(** A new task starts with the code that comes before its loop. *)
Definition new_task (a : xTaskCreate_args) : TCB_t :=
  mkTCB (loop_body (pxTaskCode a)) (uxPriority a)
        (prologue (pxTaskCode a) (pvParameters a)) 0.

(** The running system.  [history] lists, newest first, every call made
    so far with its tick and the task that made it. *)
Record system : Type := mkSystem {
  ticks : Z;
  shared : pushButtonStates;
  pins : portX_t -> pinX_t -> pinState_t;
  led_task : TCB_t;
  button_task : TCB_t;
  history : list (Z * TaskHandle_t * event)
}.

(** The system when the scheduler starts.  The global has no initialiser
    (main.c line 84), so it holds the enumerator of value 0. *)
Definition boot (pins0 : portX_t -> pinX_t -> pinState_t) : system :=
  mkSystem 0 lessThanTwoSecs pins0
           (new_task create_ledToggle) (new_task create_buttonCheck) [].

Definition tcb (h : TaskHandle_t) (s : system) : TCB_t :=
  match h with
  | ledToggleHandler => led_task s
  | buttonCheckHandler => button_task s
  end.

(** Task [h] has made call [e] and goes on with [c], ready from [wk]. *)
Definition advance (h : TaskHandle_t) (e : list event) (c : task unit)
  (wk : Z) (sh : pushButtonStates) (ps : portX_t -> pinX_t -> pinState_t)
  (s : system) : system :=
  let old := tcb h s in
  let new := mkTCB (task_loop old) (priority old) c wk in
  mkSystem (ticks s) sh ps
    (match h with ledToggleHandler => new | _ => led_task s end)
    (match h with buttonCheckHandler => new | _ => button_task s end)
    (map (fun ev => (ticks s, h, ev)) e ++ history s).

(** Task [h] makes its next call, when it is ready and not halted.  At
    the end of a pass it goes back to the top of its loop. *)
Definition run_task (signal : portX_t -> pinX_t -> Z -> pinState_t)
  (h : TaskHandle_t) (s : system) : option system :=
  let t := tcb h s in
  if wake t <=? ticks s then
    match code t with
    | Ret _ =>
        Some (advance h [] (task_loop t) (wake t)
                (shared s) (pins s) s)
    | ReadPin port pin k =>
        let v := signal port pin (ticks s) in
        Some (advance h [EvRead port pin v] (k v) (wake t)
                (shared s) (pins s) s)
    | WritePin port pin v k =>
        Some (advance h [EvWrite port pin v] k (wake t)
                (shared s) (set_latch port pin v (pins s)) s)
    | Delay n k =>
        Some (advance h [EvDelay n] k (ticks s + n)
                (shared s) (pins s) s)
    | GetState k =>
        Some (advance h [EvGet (shared s)] (k (shared s)) (wake t)
                (shared s) (pins s) s)
    | SetState v k =>
        Some (advance h [EvSet v] k (wake t) v (pins s) s)
    | Halt => None
    end
  else None.

(** One tick of the clock. *)
Definition tick (s : system) : system :=
  mkSystem (ticks s + 1) (shared s) (pins s)
           (led_task s) (button_task s) (history s).

(** What the scheduler may do next: let time pass, or run a task. *)
Inductive move : Type :=
| Tick
| Run (h : TaskHandle_t).

Definition sys_move (signal : portX_t -> pinX_t -> Z -> pinState_t)
  (m : move) (s : system) : option system :=
  match m with
  | Tick => Some (tick s)
  | Run h => run_task signal h s
  end.

Definition sys_step (signal : portX_t -> pinX_t -> Z -> pinState_t)
  (s s' : system) : Prop :=
  exists m, sys_move signal m s = Some s'.

(** The states the system can be in, whatever the scheduler does. *)
Inductive reachable (signal : portX_t -> pinX_t -> Z -> pinState_t)
  : system -> Prop :=
| reachable_boot pins0 : reachable signal (boot pins0)
| reachable_step s s' :
    reachable signal s -> sys_step signal s s' -> reachable signal s'.

(** A schedule played from a state. *)
Fixpoint sys_run (signal : portX_t -> pinX_t -> Z -> pinState_t)
  (ms : list move) (s : system) : option system :=
  match ms with
  | [] => Some s
  | m :: ms' =>
      match sys_move signal m s with
      | Some s' => sys_run signal ms' s'
      | None => None
      end
  end.

(** The value task [h] wrote last to the global, when it wrote any. *)
Fixpoint last_store (h : TaskHandle_t)
  (hist : list (Z * TaskHandle_t * event)) : option pushButtonStates :=
  match hist with
  | [] => None
  | (_, ledToggleHandler, EvSet v) :: rest =>
      match h with
      | ledToggleHandler => Some v
      | buttonCheckHandler => last_store h rest
      end
  | (_, buttonCheckHandler, EvSet v) :: rest =>
      match h with
      | buttonCheckHandler => Some v
      | ledToggleHandler => last_store h rest
      end
  | _ :: rest => last_store h rest
  end.

(** A program that never writes the global, whatever it reads. *)
Fixpoint writes_nothing {A : Type} (p : task A) : Prop :=
  match p with
  | Ret _ => True
  | ReadPin _ _ k => forall v, writes_nothing (k v)
  | WritePin _ _ _ k => writes_nothing k
  | Delay _ k => writes_nothing k
  | GetState k => forall v, writes_nothing (k v)
  | SetState _ _ => False
  | Halt => True
  end.

(** A program in which no assertion fails, whatever it reads. *)
Fixpoint never_halts {A : Type} (p : task A) : Prop :=
  match p with
  | Ret _ => True
  | ReadPin _ _ k => forall v, never_halts (k v)
  | WritePin _ _ _ k => never_halts k
  | Delay _ k => never_halts k
  | GetState k => forall v, never_halts (k v)
  | SetState _ k => never_halts k
  | Halt => False
  end.

(** What a trace holds after its first write of the global. *)
Fixpoint after_store (tr : list stamped) : list stamped :=
  match tr with
  | [] => []
  | (_, EvSet _) :: rest => rest
  | _ :: rest => after_store rest
  end.

(** The tick of the first write of the global in a trace. *)
Fixpoint store_tick (tr : list stamped) : option Z :=
  match tr with
  | [] => None
  | (t, EvSet _) :: _ => Some t
  | _ :: rest => store_tick rest
  end.

(** The button is held from tick [t0] for [d] ticks and then released:
    the line reads [PIN_IS_LOW] at every tick from [t0] to [t0 + d], and
    [PIN_IS_HIGH] at every later tick up to [t0 + 4000], the last tick at
    which a pass started at [t0] samples it. *)
Definition held (E : environment) (t0 d : Z) : Prop :=
  (forall t, t0 <= t <= t0 + d -> level E PORT_0 PIN1 t = PIN_IS_LOW) /\
  (forall t, t0 + d < t <= t0 + 4000 ->
             level E PORT_0 PIN1 t = PIN_IS_HIGH).

(** The button is never pressed. *)
Definition never_pressed (E : environment) : Prop :=
  forall t, level E PORT_0 PIN1 t = PIN_IS_HIGH.

(** The three ticks at which a pass that finds the button pressed samples
    the line. *)
Definition sample (E : environment) (w : world) (i : Z) : pinState_t :=
  level E PORT_0 PIN1 (xTickCount w + 2000 * i).

(** The classification a pass derives from what it samples. *)
Definition verdict (E : environment) (w : world) : pushButtonStates :=
  match sample E w 0, sample E w 1, sample E w 2 with
  | PIN_IS_LOW, PIN_IS_LOW, PIN_IS_LOW => moreThanFourSecs
  | PIN_IS_LOW, PIN_IS_LOW, PIN_IS_HIGH => lessThanFourSecs
  | _, _, _ => lessThanTwoSecs
  end.

(** What follows the write of the global in a pass. *)
Definition cooldown (v : pushButtonStates) : Z :=
  match v with
  | lessThanFourSecs => 2000
  | _ => 0
  end.

(** The ticks a pass spends before it writes the global. *)
Definition sampling_time (E : environment) (w : world) : Z :=
  match sample E w 0, sample E w 1 with
  | PIN_IS_LOW, PIN_IS_LOW => 4000
  | PIN_IS_LOW, PIN_IS_HIGH => 2000
  | PIN_IS_HIGH, _ => 0
  end.


(** The ticks one pass of [ledToggle] lasts, by the value it reads. *)
Definition period (v : pushButtonStates) : Z :=
  match v with
  | lessThanTwoSecs => 0
  | lessThanFourSecs => 800
  | moreThanFourSecs => 200
  end.

(** ** Inputs used in examples *)

(** The button goes down at tick [t0] and is held for [d] ticks; no other
    task writes the global. *)
Definition press (t0 d : Z) : environment :=
  mkEnvironment
    (fun _ _ t =>
       if (t0 <=? t) && (t <=? t0 + d) then PIN_IS_LOW else PIN_IS_HIGH)
    (fun _ s => s).

(** The button is left alone. *)
Definition untouched : environment :=
  mkEnvironment (fun _ _ _ => PIN_IS_HIGH) (fun _ s => s).

(** The world at tick [t] with the global holding [v] and all lines
    low. *)
Definition world_at (t : Z) (v : pushButtonStates) : world :=
  mkWorld t v (fun _ _ => PIN_IS_LOW).

(** Bounded staleness as the specification states it: the global changes
    to [v] at tick [c], while the pass of [ledToggle] started in [w] is
    under way, and the pass is over, so that the next one reads [v], no
    later than [period v] ticks after [c]. *)
Definition fresh_within_new_period (E : environment) (w : world) (c : Z)
  (v : pushButtonStates) : Prop :=
  xTickCount (final (exec E ledToggle_pass w)) - c <= period v.

(** ** What holds in every state of the running system *)

(** The global holds what [buttonCheck] wrote last, and the value it was
    started with when [buttonCheck] has not written yet. *)
Definition holds_last_write (s : system) : Prop :=
  shared s =
    match last_store buttonCheckHandler (history s) with
    | Some v => v
    | None => lessThanTwoSecs
    end.

Record sound (s : system) : Prop := mkSound {
  led_is_ledToggle : task_loop (led_task s) = ledToggle_pass;
  button_is_buttonCheck : task_loop (button_task s) = buttonCheck_pass;
  led_writes_nothing : writes_nothing (code (led_task s));
  led_never_halts : never_halts (code (led_task s));
  button_never_halts : never_halts (code (button_task s));
  led_never_wrote : last_store ledToggleHandler (history s) = None;
  shared_is_last_write : holds_last_write s
}.

Definition is_Ret {A : Type} (p : task A) : bool :=
  match p with
  | Ret _ => true
  | _ => false
  end.

(** In program [p], run after a last write [last] of the global, every
    delay that ends the pass comes after a write of [lessThanFourSecs]
    with no other write in between. *)
Fixpoint final_delay_after_medium (last : option pushButtonStates)
  (p : task unit) : Prop :=
  match p with
  | Ret _ => True
  | ReadPin _ _ k => forall v, final_delay_after_medium last (k v)
  | WritePin _ _ _ k => final_delay_after_medium last k
  | Delay _ k =>
      (is_Ret k = true -> last = Some lessThanFourSecs) /\
      final_delay_after_medium last k
  | GetState k => forall v, final_delay_after_medium last (k v)
  | SetState v k => final_delay_after_medium (Some v) k
  | Halt => True
  end.

(** [buttonCheck] is about to call the delay that ends a pass (main.c
    line 158), or is blocked in it. *)
Definition in_cooldown (s : system) : Prop :=
  code (button_task s) = Delay 2000 (Ret tt) \/
  (code (button_task s) = Ret tt /\ ticks s < wake (button_task s)).

Record ordered (s : system) : Prop := mkOrdered {
  ordered_code :
    final_delay_after_medium
      (last_store buttonCheckHandler (history s)) (code (button_task s));
  ordered_blocked :
    is_Ret (code (button_task s)) = true ->
    ticks s < wake (button_task s) ->
    last_store buttonCheckHandler (history s) = Some lessThanFourSecs
}.

(** The button is down from tick 0 to tick 3000. *)
Definition down_until_3000 : portX_t -> pinX_t -> Z -> pinState_t :=
  fun _ _ t => if t <=? 3000 then PIN_IS_LOW else PIN_IS_HIGH.

Definition all_low : portX_t -> pinX_t -> pinState_t :=
  fun _ _ => PIN_IS_LOW.

(** A schedule that takes [buttonCheck] through one pass up to its last
    delay, sampling at the ticks 0, 2000 and 4000, while [ledToggle] runs
    when [buttonCheck] is blocked. *)
Definition schedule_to_cooldown : list move :=
  [Run buttonCheckHandler; Run buttonCheckHandler; Run buttonCheckHandler;
   Run ledToggleHandler; Run ledToggleHandler; Run ledToggleHandler]
  ++ repeat Tick 2000
  ++ [Run buttonCheckHandler; Run buttonCheckHandler]
  ++ repeat Tick 2000
  ++ [Run buttonCheckHandler; Run buttonCheckHandler; Run buttonCheckHandler;
      Run ledToggleHandler].

(** The state that schedule leads to, and the one after [ledToggle] has
    then read the global. *)
Definition cooldown_state : system :=
  Eval vm_compute in
    match sys_run down_until_3000 schedule_to_cooldown (boot all_low) with
    | Some s => s
    | None => boot all_low
    end.

Definition cooldown_state_read : system :=
  Eval vm_compute in
    match run_task down_until_3000 ledToggleHandler cooldown_state with
    | Some s => s
    | None => cooldown_state
    end.

(** A heap with room for everything. *)
Definition roomy : heap_t := mkHeap true true true.

(** A heap with room for the two tasks but not for the idle task. *)
Definition cramped : heap_t := mkHeap true true false.

(** Program [p] writes nothing but [lessThanTwoSecs] to the global as
    long as the button line reads [PIN_IS_HIGH]. *)
Fixpoint idle_writes (p : task unit) : Prop :=
  match p with
  | Ret _ => True
  | ReadPin port pin k =>
      forall v, (port = PORT_0 -> pin = PIN1 -> v = PIN_IS_HIGH) ->
                idle_writes (k v)
  | WritePin _ _ _ k => idle_writes k
  | Delay _ k => idle_writes k
  | GetState k => forall v, idle_writes (k v)
  | SetState v k => v = lessThanTwoSecs /\ idle_writes k
  | Halt => True
  end.

(** The value a trace of writes leaves in the global at tick [t], when it
    held [s] before: that of the last write made at tick [t] or
    earlier. *)
Fixpoint state_at (tr : list stamped) (t : Z) (s : pushButtonStates)
  : pushButtonStates :=
  match tr with
  | [] => s
  | (t', EvSet v) :: rest =>
      if t' <=? t then state_at rest t v else s
  | _ :: rest => state_at rest t s
  end.

(** The button is down from tick 0 to tick 3000 and again from tick 6000
    to tick 10000. *)
Definition two_presses : environment :=
  mkEnvironment
    (fun _ _ t =>
       if (t <=? 3000) || ((6000 <=? t) && (t <=? 10000))
       then PIN_IS_LOW else PIN_IS_HIGH)
    (fun _ s => s).

(** What [buttonCheck] does in its first two passes on [two_presses]. *)
Definition two_verdicts : list stamped :=
  trace (passes two_presses buttonCheck_pass 2
           (world_at 0 lessThanTwoSecs)).

(** The surroundings of [ledToggle] when [buttonCheck] writes the global
    as in [two_verdicts]. *)
Definition beside_buttonCheck : environment :=
  mkEnvironment (fun _ _ _ => PIN_IS_HIGH) (state_at two_verdicts).

(** ** Further definitions *)

(** The writes of the global in a trace, with their ticks. *)
Fixpoint stamped_stores (tr : list stamped)
  : list (Z * pushButtonStates) :=
  match tr with
  | [] => []
  | (t, EvSet v) :: rest => (t, v) :: stamped_stores rest
  | _ :: rest => stamped_stores rest
  end.

(** The number of reads of an input line in a trace. *)
Fixpoint reads (tr : list stamped) : nat :=
  match tr with
  | [] => O
  | (_, EvRead _ _ _) :: rest => S (reads rest)
  | _ :: rest => reads rest
  end.

(** The delays of a trace, in order. *)
Fixpoint delays (tr : list stamped) : list Z :=
  match tr with
  | [] => []
  | (_, EvDelay n) :: rest => n :: delays rest
  | _ :: rest => delays rest
  end.

(** Two surroundings show the same button level at the three ticks at
    which a pass started in [w] may sample it. *)
Definition same_samples (E E' : environment) (w : world) : Prop :=
  level E PORT_0 PIN1 (xTickCount w) =
    level E' PORT_0 PIN1 (xTickCount w) /\
  level E PORT_0 PIN1 (xTickCount w + 2000) =
    level E' PORT_0 PIN1 (xTickCount w + 2000) /\
  level E PORT_0 PIN1 (xTickCount w + 4000) =
    level E' PORT_0 PIN1 (xTickCount w + 4000).

(** The button is down at every tick. *)
Definition always_pressed (E : environment) : Prop :=
  forall t, level E PORT_0 PIN1 t = PIN_IS_LOW.

(** The button is held from tick [t0] for [d] ticks and then left alone
    up to tick [t0 + 6000]. *)
Definition held_then_released (E : environment) (t0 d : Z) : Prop :=
  (forall t, t0 <= t <= t0 + d -> level E PORT_0 PIN1 t = PIN_IS_LOW) /\
  (forall t, t0 + d < t <= t0 + 6000 ->
             level E PORT_0 PIN1 t = PIN_IS_HIGH).

(** The button is held down throughout; no other task writes the
    global. *)
Definition kept_down : environment :=
  mkEnvironment (fun _ _ _ => PIN_IS_LOW) (fun _ s => s).

(** The button is down from tick 0 to tick 3000 but for a release seen
    only at the ticks 500 to 1500, between two samples. *)
Definition press_with_gap : environment :=
  mkEnvironment
    (fun _ _ t =>
       if (t <=? 3000) && negb ((500 <=? t) && (t <=? 1500))
       then PIN_IS_LOW else PIN_IS_HIGH)
    (fun _ s => s).

(** Every call that program [p] can make, whatever it is answered,
    satisfies [P]. *)
Fixpoint calls_satisfy (P : event -> Prop) (p : task unit) : Prop :=
  match p with
  | Ret _ => True
  | ReadPin port pin k =>
      (forall v, P (EvRead port pin v)) /\
      (forall v, calls_satisfy P (k v))
  | WritePin port pin v k => P (EvWrite port pin v) /\ calls_satisfy P k
  | Delay n k => P (EvDelay n) /\ calls_satisfy P k
  | GetState k =>
      (forall v, P (EvGet v)) /\ (forall v, calls_satisfy P (k v))
  | SetState v k => P (EvSet v) /\ calls_satisfy P k
  | Halt => True
  end.

(** The calls found in [ledToggle]: the read of the global, writes of
    the LED line, delays of 400 and of 100 ticks. *)
Definition ledToggle_call (e : event) : Prop :=
  match e with
  | EvGet _ => True
  | EvWrite PORT_0 PIN0 _ => True
  | EvDelay n => n = 400 \/ n = 100
  | _ => False
  end.

(** The calls found in [buttonCheck]: reads of the button line, delays of
    2000 ticks, writes of the global. *)
Definition buttonCheck_call (e : event) : Prop :=
  match e with
  | EvRead PORT_0 PIN1 _ => True
  | EvDelay n => n = 2000
  | EvSet _ => True
  | _ => False
  end.

Definition call_of (h : TaskHandle_t) (e : event) : Prop :=
  match h with
  | ledToggleHandler => ledToggle_call e
  | buttonCheckHandler => buttonCheck_call e
  end.

Record disciplined (pins0 : portX_t -> pinX_t -> pinState_t) (s : system)
  : Prop := mkDisciplined {
  led_calls : calls_satisfy ledToggle_call (code (led_task s));
  button_calls : calls_satisfy buttonCheck_call (code (button_task s));
  past_calls : forall t h e, In (t, h, e) (history s) -> call_of h e;
  other_lines :
    forall port pin, port <> PORT_0 \/ pin <> PIN0 ->
                     pins s port pin = pins0 port pin
}.

(** ** Scheduling by priority *)

Definition is_Halt {A : Type} (p : task A) : bool :=
  match p with
  | Halt => true
  | _ => false
  end.

(** A task is ready when its delay is over and no assertion has stopped
    it. *)
Definition ready (h : TaskHandle_t) (s : system) : bool :=
  (wake (tcb h s) <=? ticks s) && negb (is_Halt (code (tcb h s))).

Definition other_task (h : TaskHandle_t) : TaskHandle_t :=
  match h with
  | ledToggleHandler => buttonCheckHandler
  | buttonCheckHandler => ledToggleHandler
  end.

(** Modelled from the spec: the scheduler (tasks.c, FreeRTOSConfig.h) is
    not among the sources.  Under its preemptive priority scheduling a
    task is not given the processor while a task of higher priority is
    ready. *)
Definition may_run (h : TaskHandle_t) (s : system) : bool :=
  negb (ready (other_task h) s &&
        (priority (tcb h s) <? priority (tcb (other_task h) s))).

Definition permitted (m : move) (s : system) : bool :=
  match m with
  | Tick => true
  | Run h => may_run h s
  end.

(** A schedule played from a state, every move of which respects the
    priorities. *)
Fixpoint priority_run (signal : portX_t -> pinX_t -> Z -> pinState_t)
  (ms : list move) (s : system) : option system :=
  match ms with
  | [] => Some s
  | m :: ms' =>
      if permitted m s then
        match sys_move signal m s with
        | Some s' => priority_run signal ms' s'
        | None => None
        end
      else None
  end.

(** Program [p] calls no delay and is not stopped as long as the button
    line reads [PIN_IS_HIGH]. *)
Fixpoint never_blocks_when_idle (p : task unit) : Prop :=
  match p with
  | Ret _ => True
  | ReadPin port pin k =>
      forall v, (port = PORT_0 -> pin = PIN1 -> v = PIN_IS_HIGH) ->
                never_blocks_when_idle (k v)
  | WritePin _ _ _ k => never_blocks_when_idle k
  | Delay _ _ => False
  | GetState k => forall v, never_blocks_when_idle (k v)
  | SetState _ k => never_blocks_when_idle k
  | Halt => False
  end.

Record ranked (s : system) : Prop := mkRanked {
  led_priority : priority (led_task s) = 1;
  button_priority : priority (button_task s) = 2;
  clock_started : 0 <= ticks s
}.

Record starved (pins0 : portX_t -> pinX_t -> pinState_t) (s : system)
  : Prop := mkStarved {
  button_spins : never_blocks_when_idle (code (button_task s));
  button_awake : wake (button_task s) = 0;
  led_waits : code (led_task s) = Ret tt;
  led_silent : forall t e, ~ In (t, ledToggleHandler, e) (history s);
  lines_untouched : forall port pin, pins s port pin = pins0 port pin
}.

(** The button is never pressed. *)
Definition released_line : portX_t -> pinX_t -> Z -> pinState_t :=
  fun _ _ _ => PIN_IS_HIGH.

(** [buttonCheck] makes three passes while two ticks go by. *)
Definition idle_schedule : list move :=
  [Run buttonCheckHandler; Run buttonCheckHandler; Run buttonCheckHandler;
   Run buttonCheckHandler; Tick; Run buttonCheckHandler;
   Run buttonCheckHandler; Run buttonCheckHandler; Tick;
   Run buttonCheckHandler; Run buttonCheckHandler].

Definition idle_state : system :=
  Eval vm_compute in
    match priority_run released_line idle_schedule (boot all_low) with
    | Some s => s
    | None => boot all_low
    end.

(** ** The calls of [ledToggle] in the running system, pass by pass *)

Definition handle_eqb (a b : TaskHandle_t) : bool :=
  match a, b with
  | ledToggleHandler, ledToggleHandler
  | buttonCheckHandler, buttonCheckHandler => true
  | _, _ => false
  end.

(** The calls of task [h] in a history, oldest first, with their ticks. *)
Fixpoint calls_by (h : TaskHandle_t)
  (hist : list (Z * TaskHandle_t * event)) : list stamped :=
  match hist with
  | [] => []
  | (t, h', e) :: rest =>
      if handle_eqb h h' then calls_by h rest ++ [(t, e)]
      else calls_by h rest
  end.

(** What [ledToggle] goes on with once its switch has read [v]. *)
Definition after_read (v : pushButtonStates) : task unit :=
  match ledToggle_pass with
  | GetState k => k v
  | _ => Ret tt
  end.

(** The calls of a program up to its first read, if any. *)
Fixpoint straight (p : task unit) : list event :=
  match p with
  | WritePin port pin v k => EvWrite port pin v :: straight k
  | Delay n k => EvDelay n :: straight k
  | SetState v k => EvSet v :: straight k
  | _ => []
  end.

(** A program that makes no read and is not stopped. *)
Fixpoint straight_only (p : task unit) : Prop :=
  match p with
  | Ret _ => True
  | WritePin _ _ _ k => straight_only k
  | Delay _ k => straight_only k
  | SetState _ k => straight_only k
  | _ => False
  end.

Definition is_get (e : event) : bool :=
  match e with
  | EvGet _ => true
  | _ => false
  end.

(** Reading a log of calls of [ledToggle] from the oldest on, with [due]
    the calls still to come in the pass under way, leaves [left] to come:
    a read of the global starts a pass when nothing is due, and any
    other call is the first one due. *)
Fixpoint log_leaves (log due left : list event) : Prop :=
  match log with
  | [] => due = left
  | e :: log' =>
      match due with
      | [] =>
          match e with
          | EvGet v => log_leaves log' (straight (after_read v)) left
          | _ => False
          end
      | x :: due' => e = x /\ log_leaves log' due' left
      end
  end.

(** The ticks a call keeps the task away: those of a delay, none for any
    other call. *)
Definition call_time (e : event) : Z :=
  match e with
  | EvDelay n => n
  | _ => 0
  end.

(** Every call of the log but the first is made at the tick at which the
    call before it is over: the task is never kept waiting for the
    processor. *)
Fixpoint prompt (log : list stamped) : Prop :=
  match log with
  | [] => True
  | (t1, e1) :: rest =>
      match rest with
      | [] => True
      | (t2, _) :: _ => t2 = t1 + call_time e1 /\ prompt rest
      end
  end.

(** What holds of [ledToggle] in every state of the running system: it
    is at the top of its loop or in the straight part of a pass, and
    what is due in the pass is what the log of its calls leaves. *)
Record paced (s : system) : Prop := mkPaced {
  led_in_pass :
    code (led_task s) = ledToggle_pass \/ straight_only (code (led_task s));
  led_log :
    log_leaves (actions (calls_by ledToggleHandler (history s))) []
               (straight (code (led_task s)))
}.

(** ** A run under priority scheduling on [two_presses] *)

Definition led_first_half : list move :=
  [Run ledToggleHandler; Run ledToggleHandler; Run ledToggleHandler;
   Run ledToggleHandler] ++ repeat Tick 400.

Definition led_second_half : list move :=
  [Run ledToggleHandler; Run ledToggleHandler] ++ repeat Tick 400.

Definition led_pass : list move := led_first_half ++ led_second_half.

(** [buttonCheck] samples at the ticks 0, 2000 and 4000, writes
    [lessThanFourSecs] and waits until tick 6000, then samples at the
    ticks 6000, 8000 and 10000 and writes [moreThanFourSecs];
    [ledToggle] makes passes of 800 ticks from tick 4000 on, each call
    at the tick it is due, and reads the global at tick 10400 for the
    ninth time. *)
Definition staleness_schedule : list move :=
  [Run buttonCheckHandler; Run buttonCheckHandler; Run buttonCheckHandler]
  ++ repeat Tick 2000
  ++ [Run buttonCheckHandler; Run buttonCheckHandler]
  ++ repeat Tick 2000
  ++ [Run buttonCheckHandler; Run buttonCheckHandler; Run buttonCheckHandler]
  ++ led_pass ++ led_pass ++ led_first_half
  ++ [Run buttonCheckHandler; Run buttonCheckHandler; Run buttonCheckHandler]
  ++ led_second_half ++ led_pass ++ led_pass
  ++ [Run buttonCheckHandler; Run buttonCheckHandler]
  ++ led_pass ++ led_pass ++ led_first_half
  ++ [Run buttonCheckHandler; Run buttonCheckHandler; Run buttonCheckHandler;
      Run buttonCheckHandler; Run buttonCheckHandler]
  ++ led_second_half
  ++ [Run ledToggleHandler; Run ledToggleHandler].

Definition staleness_state : system :=
  Eval vm_compute in
    match priority_run (level two_presses) staleness_schedule
            (boot all_low) with
    | Some s => s
    | None => boot all_low
    end.

(** The calls of [ledToggle] in that run before its pass of tick 9600. *)
Definition staleness_before : list stamped :=
  Eval vm_compute in
    firstn 35 (calls_by ledToggleHandler (history staleness_state)).

(** A schedule on [down_until_3000] in which [ledToggle] is in the first
    half of a pass, the LED on, when [buttonCheck] comes back from its
    delay at tick 6000 and finds the button up. *)
Definition schedule_to_release : list move :=
  [Run buttonCheckHandler; Run buttonCheckHandler; Run buttonCheckHandler]
  ++ repeat Tick 2000
  ++ [Run buttonCheckHandler; Run buttonCheckHandler]
  ++ repeat Tick 2000
  ++ [Run buttonCheckHandler; Run buttonCheckHandler; Run buttonCheckHandler]
  ++ led_pass ++ led_pass ++ led_first_half
  ++ [Run buttonCheckHandler; Run buttonCheckHandler; Run buttonCheckHandler].

Definition release_state : system :=
  Eval vm_compute in
    match priority_run down_until_3000 schedule_to_release
            (boot all_low) with
    | Some s => s
    | None => boot all_low
    end.

(** [ledToggle] is kept from the processor from state [s0] on: what is
    left of the pass of [buttonCheck] calls no delay while the button is
    up, [buttonCheck] is ready, the clock has reached tick [T], and
    [ledToggle] and the lines are as in [s0]. *)
Record frozen (T : Z) (s0 s : system) : Prop := mkFrozen {
  frozen_spins : never_blocks_when_idle (code (button_task s));
  frozen_awake : wake (button_task s) <= ticks s;
  frozen_clock : T <= ticks s;
  frozen_led : led_task s = led_task s0;
  frozen_calls :
    calls_by ledToggleHandler (history s) =
      calls_by ledToggleHandler (history s0);
  frozen_lines : forall port pin, pins s port pin = pins s0 port pin
}.
(** * Properties *)

(** ** One pass of [buttonCheck] *)

Lemma sample_0 E w : sample E w 0 = level E PORT_0 PIN1 (xTickCount w).
Proof. unfold sample. f_equal. lia. Qed.

Lemma sample_1 E w :
  sample E w 1 = level E PORT_0 PIN1 (xTickCount w + 2000).
Proof. unfold sample. f_equal. Qed.

Lemma sample_2 E w :
  sample E w 2 = level E PORT_0 PIN1 (xTickCount w + 2000 + 2000).
Proof. unfold sample. f_equal. lia. Qed.

Ltac sample_cases E w :=
  unfold verdict, sampling_time;
  rewrite ?sample_0, ?sample_1, ?sample_2;
  unfold buttonCheck_pass; cbn;
  destruct (level E PORT_0 PIN1 (xTickCount w)); cbn;
  [ destruct (level E PORT_0 PIN1 (xTickCount w + 2000)); cbn;
    [ destruct (level E PORT_0 PIN1 (xTickCount w + 2000 + 2000)); cbn
    | ]
  | ].

(** A pass writes the global once, with its verdict. *)
Lemma buttonCheck_pass_stores E w :
  stores (trace (exec E buttonCheck_pass w)) = [verdict E w].
Proof. sample_cases E w; reflexivity. Qed.

Lemma buttonCheck_pass_value E w :
  value (exec E buttonCheck_pass w) = Some tt.
Proof. sample_cases E w; reflexivity. Qed.

Lemma buttonCheck_pass_final E w :
  xTickCount (final (exec E buttonCheck_pass w)) =
    xTickCount w + sampling_time E w + cooldown (verdict E w) /\
  (quiet E -> pushButtonState (final (exec E buttonCheck_pass w)) =
              verdict E w).
Proof.
  sample_cases E w; (split; [lia | intros Q; rewrite ?Q; reflexivity]).
Qed.

Lemma buttonCheck_pass_after_store E w :
  store_tick (trace (exec E buttonCheck_pass w)) =
    Some (xTickCount w + sampling_time E w) /\
  after_store (trace (exec E buttonCheck_pass w)) =
    match verdict E w with
    | lessThanFourSecs => [(xTickCount w + sampling_time E w, EvDelay 2000)]
    | _ => []
    end.
Proof.
  sample_cases E w; rewrite ?Z.add_0_r, <- ?Z.add_assoc;
    change (2000 + 2000) with 4000; split; reflexivity.
Qed.

Lemma buttonCheck_pass_first E w :
  hd_error (trace (exec E buttonCheck_pass w)) =
    Some (xTickCount w,
          EvRead PORT_0 PIN1 (level E PORT_0 PIN1 (xTickCount w))).
Proof.
  unfold buttonCheck_pass; cbn. reflexivity.
Qed.

(** What a press of [d] ticks is classified as, when the pass starts with
    the press. *)
Lemma verdict_of_hold E w d :
  0 <= d -> held E (xTickCount w) d ->
  verdict E w =
    if d <? 2000 then lessThanTwoSecs
    else if d <? 4000 then lessThanFourSecs
    else moreThanFourSecs.
Proof.
  intros Hd [Hlow Hhigh]. unfold verdict.
  rewrite sample_0, sample_1, sample_2.
  rewrite (Hlow (xTickCount w)) by lia.
  destruct (Z.ltb_spec d 2000) as [H2|H2].
  - rewrite (Hhigh (xTickCount w + 2000)) by lia. reflexivity.
  - rewrite (Hlow (xTickCount w + 2000)) by lia.
    destruct (Z.ltb_spec d 4000) as [H4|H4].
    + rewrite (Hhigh (xTickCount w + 2000 + 2000)) by lia. reflexivity.
    + rewrite (Hlow (xTickCount w + 2000 + 2000)) by lia. reflexivity.
Qed.

(** C1. Band correctness.  A pass of [buttonCheck] starts at the tick at
    which the button goes down; the button stays down for [d] ticks (one
    tick is one millisecond) and is then released.  The pass writes the
    global exactly once: with [lessThanTwoSecs] (Short) when [d < 2000],
    with [lessThanFourSecs] (Medium) when [2000 <= d < 4000], and with
    [moreThanFourSecs] (Long) when [4000 <= d]; this is also the value
    the global holds at the end of the pass when no other task writes
    it. *)
Theorem band_correctness (E : environment) (w : world) (d : Z) :
  0 <= d ->
  held E (xTickCount w) d ->
  let o := exec E buttonCheck_pass w in
  (d < 2000 ->
     stores (trace o) = [lessThanTwoSecs] /\
     (quiet E -> pushButtonState (final o) = lessThanTwoSecs)) /\
  (2000 <= d < 4000 ->
     stores (trace o) = [lessThanFourSecs] /\
     (quiet E -> pushButtonState (final o) = lessThanFourSecs)) /\
  (4000 <= d ->
     stores (trace o) = [moreThanFourSecs] /\
     (quiet E -> pushButtonState (final o) = moreThanFourSecs)).
Proof.
  intros Hd Hheld o. subst o.
  rewrite buttonCheck_pass_stores.
  destruct (buttonCheck_pass_final E w) as [_ Hcell].
  rewrite (verdict_of_hold E w d Hd Hheld) in *.
  destruct (Z.ltb_spec d 2000); [ | destruct (Z.ltb_spec d 4000) ].
  all: repeat split; intros; try lia; auto.
Qed.

Lemma band_correctness_witness :
  held (press 0 3000) (xTickCount (world_at 0 lessThanTwoSecs)) 3000 /\
  stores (trace (exec (press 0 3000) buttonCheck_pass
                   (world_at 0 lessThanTwoSecs))) = [lessThanFourSecs].
Proof.
  assert (H : held (press 0 3000)
                (xTickCount (world_at 0 lessThanTwoSecs)) 3000).
  { split; intros t Ht; simpl in *;
      destruct (Z.leb_spec 0 t); destruct (Z.leb_spec t 3000);
      simpl; try reflexivity; lia. }
  split; [exact H | ].
  apply (band_correctness (press 0 3000) (world_at 0 lessThanTwoSecs) 3000
           ltac:(lia) H).
  lia.
Defined.

(** [held] counts the press as still down at tick [t0 + d].  A line that
    is low at the ticks 0 to 1999 and high from tick 2000 on is written as
    [lessThanTwoSecs]; one that is still low at tick 2000 is written as
    [lessThanFourSecs]. *)
Example release_seen_on_the_sampling_tick :
  stores (trace (exec (press 0 1999) buttonCheck_pass
                   (world_at 0 lessThanTwoSecs))) = [lessThanTwoSecs] /\
  stores (trace (exec (press 0 2000) buttonCheck_pass
                   (world_at 0 lessThanTwoSecs))) = [lessThanFourSecs].
Proof. split; reflexivity. Qed.

(** The passes that follow write the global again: a press of 7000 ticks
    is written as [moreThanFourSecs] at tick 4000, then as
    [lessThanFourSecs] at tick 8000 by the pass that started at tick 4000,
    then as [lessThanTwoSecs] once the button is found released. *)
Example later_passes_write_again :
  stores (trace (passes (press 0 7000) buttonCheck_pass 3
                   (world_at 0 lessThanTwoSecs))) =
    [moreThanFourSecs; lessThanFourSecs; lessThanTwoSecs].
Proof. reflexivity. Qed.

(** ** The loop of [buttonCheck] with the button left alone *)

Lemma idle_pass E w :
  never_pressed E ->
  exec E buttonCheck_pass w =
    mkOutcome
      [(xTickCount w, EvRead PORT_0 PIN1 PIN_IS_HIGH);
       (xTickCount w, EvSet lessThanTwoSecs)]
      (mkWorld (xTickCount w) lessThanTwoSecs (latch w))
      (Some tt).
Proof.
  intros Hidle. unfold buttonCheck_pass. cbn.
  rewrite (Hidle (xTickCount w)). reflexivity.
Qed.

Lemma stores_app tr tr' : stores (tr ++ tr') = stores tr ++ stores tr'.
Proof.
  induction tr as [|[t e] tr IH]; [reflexivity|].
  destruct e; cbn; rewrite ?IH; reflexivity.
Qed.

(** ** One pass of [ledToggle] *)

(** C3. Pattern of the blink driver.  A pass of the loop of [ledToggle]
    reads the global once, at its top, and what it then does is fixed by
    the value read, whatever the other tasks write meanwhile:
    [lessThanTwoSecs] (Short): the LED line is written low and the pass
    ends with no delay; [lessThanFourSecs] (Medium): high, delay of 400
    ticks, low, delay of 400 ticks; [moreThanFourSecs] (Long): high,
    delay of 100 ticks, low, delay of 100 ticks. *)
Theorem ledToggle_pass_pattern (E : environment) (w : world) :
  let o := exec E ledToggle_pass w in
  actions (trace o) =
    EvGet (pushButtonState w) ::
    match pushButtonState w with
    | lessThanTwoSecs =>
        [EvWrite PORT_0 PIN0 PIN_IS_LOW]
    | lessThanFourSecs =>
        [EvWrite PORT_0 PIN0 PIN_IS_HIGH; EvDelay 400;
         EvWrite PORT_0 PIN0 PIN_IS_LOW; EvDelay 400]
    | moreThanFourSecs =>
        [EvWrite PORT_0 PIN0 PIN_IS_HIGH; EvDelay 100;
         EvWrite PORT_0 PIN0 PIN_IS_LOW; EvDelay 100]
    end /\
  xTickCount (final o) =
    xTickCount w +
    match pushButtonState w with
    | lessThanTwoSecs => 0
    | lessThanFourSecs => 400 + 400
    | moreThanFourSecs => 100 + 100
    end /\
  latch (final o) PORT_0 PIN0 = PIN_IS_LOW /\
  value o = Some tt.
Proof.
  unfold ledToggle_pass. cbn.
  destruct (pushButtonState w); cbn; repeat split; lia.
Qed.

(** ** The delay after a [lessThanFourSecs] *)

(** C4. Cooldown after Medium only.  A pass of [buttonCheck] starts at
    tick [t0] and the button line reads [a], [b] and [c] at the ticks
    [t0], [t0 + 2000] and [t0 + 4000].  When [a] and [b] are low and [c]
    is high the pass writes [lessThanFourSecs] (Medium) at tick
    [t0 + 4000], then calls one delay of 2000 ticks, and ends at tick
    [t0 + 6000].  In every other case it writes [lessThanTwoSecs] or
    [moreThanFourSecs], nothing follows the write, and the pass ends at
    the tick of the write.  In all cases the global is written once and
    the next pass starts, at the tick the pass ends, with a read of the
    button line. *)
Theorem cooldown_only_after_medium (E : environment) (w : world)
  (a b c : pinState_t) :
  level E PORT_0 PIN1 (xTickCount w) = a ->
  level E PORT_0 PIN1 (xTickCount w + 2000) = b ->
  level E PORT_0 PIN1 (xTickCount w + 4000) = c ->
  let o := exec E buttonCheck_pass w in
  let v := match a, b, c with
           | PIN_IS_LOW, PIN_IS_LOW, PIN_IS_LOW => moreThanFourSecs
           | PIN_IS_LOW, PIN_IS_LOW, PIN_IS_HIGH => lessThanFourSecs
           | _, _, _ => lessThanTwoSecs
           end in
  let t := xTickCount w +
           match a, b with
           | PIN_IS_LOW, PIN_IS_LOW => 4000
           | PIN_IS_LOW, PIN_IS_HIGH => 2000
           | PIN_IS_HIGH, _ => 0
           end in
  stores (trace o) = [v] /\
  store_tick (trace o) = Some t /\
  after_store (trace o) =
    match v with
    | lessThanFourSecs => [(t, EvDelay 2000)]
    | _ => []
    end /\
  xTickCount (final o) =
    match v with
    | lessThanFourSecs => t + 2000
    | _ => t
    end /\
  hd_error (trace (exec E buttonCheck_pass (final o))) =
    Some (xTickCount (final o),
          EvRead PORT_0 PIN1 (level E PORT_0 PIN1 (xTickCount (final o)))).
Proof.
  intros Ha Hb Hc o v t. subst o v t.
  assert (Hv : verdict E w =
               match a, b, c with
               | PIN_IS_LOW, PIN_IS_LOW, PIN_IS_LOW => moreThanFourSecs
               | PIN_IS_LOW, PIN_IS_LOW, PIN_IS_HIGH => lessThanFourSecs
               | _, _, _ => lessThanTwoSecs
               end).
  { unfold verdict. rewrite sample_0, sample_1, sample_2.
    replace (xTickCount w + 2000 + 2000) with (xTickCount w + 4000) by lia.
    rewrite Ha, Hb, Hc. reflexivity. }
  assert (Hs : sampling_time E w =
               match a, b with
               | PIN_IS_LOW, PIN_IS_LOW => 4000
               | PIN_IS_LOW, PIN_IS_HIGH => 2000
               | PIN_IS_HIGH, _ => 0
               end).
  { unfold sampling_time. rewrite sample_0, sample_1, Ha, Hb.
    reflexivity. }
  rewrite <- Hv, <- Hs.
  destruct (buttonCheck_pass_after_store E w) as [Ht Hafter].
  destruct (buttonCheck_pass_final E w) as [Hend _].
  split; [apply buttonCheck_pass_stores | ].
  split; [exact Ht | ].
  split; [rewrite Hafter; destruct (verdict E w); reflexivity | ].
  split; [rewrite Hend; destruct (verdict E w); cbn; lia | ].
  apply buttonCheck_pass_first.
Qed.

Lemma cooldown_only_after_medium_witness :
  level (press 0 3000) PORT_0 PIN1
    (xTickCount (world_at 0 lessThanTwoSecs)) = PIN_IS_LOW /\
  level (press 0 3000) PORT_0 PIN1
    (xTickCount (world_at 0 lessThanTwoSecs) + 2000) = PIN_IS_LOW /\
  level (press 0 3000) PORT_0 PIN1
    (xTickCount (world_at 0 lessThanTwoSecs) + 4000) = PIN_IS_HIGH /\
  stores (trace (exec (press 0 3000) buttonCheck_pass
                   (world_at 0 lessThanTwoSecs))) = [lessThanFourSecs] /\
  after_store (trace (exec (press 0 3000) buttonCheck_pass
                        (world_at 0 lessThanTwoSecs))) =
    [(4000, EvDelay 2000)] /\
  xTickCount (final (exec (press 0 3000) buttonCheck_pass
                       (world_at 0 lessThanTwoSecs))) = 6000.
Proof.
  pose proof (cooldown_only_after_medium (press 0 3000)
                (world_at 0 lessThanTwoSecs)
                PIN_IS_LOW PIN_IS_LOW PIN_IS_HIGH
                eq_refl eq_refl eq_refl) as H.
  cbv zeta in H. destruct H as (H1 & _ & H3 & H4 & _).
  split; [reflexivity | ]. split; [reflexivity | ].
  split; [reflexivity | ].
  split; [exact H1 | ]. split; [exact H3 | exact H4].
Defined.

(** The three verdicts occur: presses of 1000, 3000 and 5000 ticks. *)
Example cooldown_cases :
  let run d := exec (press 0 d) buttonCheck_pass (world_at 0 lessThanTwoSecs)
  in
  (stores (trace (run 1000)), after_store (trace (run 1000)),
   xTickCount (final (run 1000))) = ([lessThanTwoSecs], [], 2000) /\
  (stores (trace (run 3000)), after_store (trace (run 3000)),
   xTickCount (final (run 3000))) =
    ([lessThanFourSecs], [(4000, EvDelay 2000)], 6000) /\
  (stores (trace (run 5000)), after_store (trace (run 5000)),
   xTickCount (final (run 5000))) = ([moreThanFourSecs], [], 4000).
Proof. repeat split; reflexivity. Qed.

(** ** How late [ledToggle] sees a change of the global *)

Lemma ledToggle_pass_final E w :
  xTickCount (final (exec E ledToggle_pass w)) =
    xTickCount w + period (pushButtonState w).
Proof.
  unfold ledToggle_pass. cbn.
  destruct (pushButtonState w); cbn; lia.
Qed.

Lemma ledToggle_pass_first E w :
  hd_error (trace (exec E ledToggle_pass w)) =
    Some (xTickCount w, EvGet (pushButtonState w)).
Proof. reflexivity. Qed.

Lemma ledToggle_pass_stores E w :
  stores (trace (exec E ledToggle_pass w)) = [].
Proof.
  unfold ledToggle_pass. cbn. destruct (pushButtonState w); reflexivity.
Qed.

Lemma period_bound v : 0 <= period v <= 800.
Proof. destruct v; cbn; lia. Qed.

(** On [two_presses], [buttonCheck] writes [lessThanFourSecs] at tick
    4000 and [moreThanFourSecs] at tick 10000; [ledToggle], which reads
    [lessThanFourSecs] at tick 4000, starts its eighth pass at tick
    9600 with the global unchanged. *)
Example two_presses_timeline :
  two_verdicts =
    [(0, EvRead PORT_0 PIN1 PIN_IS_LOW); (0, EvDelay 2000);
     (2000, EvRead PORT_0 PIN1 PIN_IS_LOW); (2000, EvDelay 2000);
     (4000, EvRead PORT_0 PIN1 PIN_IS_HIGH);
     (4000, EvSet lessThanFourSecs); (4000, EvDelay 2000);
     (6000, EvRead PORT_0 PIN1 PIN_IS_LOW); (6000, EvDelay 2000);
     (8000, EvRead PORT_0 PIN1 PIN_IS_LOW); (8000, EvDelay 2000);
     (10000, EvRead PORT_0 PIN1 PIN_IS_LOW);
     (10000, EvSet moreThanFourSecs)] /\
  final (passes beside_buttonCheck ledToggle_pass 7
           (world_at 4000 lessThanFourSecs)) =
    mkWorld 9600 lessThanFourSecs
      (latch (final (passes beside_buttonCheck ledToggle_pass 7
                       (world_at 4000 lessThanFourSecs)))).
Proof. split; vm_compute; reflexivity. Qed.

(** C6, as stated, fails.  [buttonCheck] changes the global from
    [lessThanFourSecs] (Medium) to [moreThanFourSecs] (Long) at tick
    10000, while the pass of [ledToggle] that started at tick 9600 is
    under way.  The pass goes on with the pattern of Medium and ends at
    tick 10400, where the global is read again: 400 ticks after the
    change, more than the 200 ticks of the period of Long. *)
Lemma staleness_counterexample :
  In (10000, EvSet moreThanFourSecs) two_verdicts /\
  pushButtonState (world_at 9600 lessThanFourSecs) = lessThanFourSecs /\
  actions (trace (exec beside_buttonCheck ledToggle_pass
                    (world_at 9600 lessThanFourSecs))) =
    [EvGet lessThanFourSecs;
     EvWrite PORT_0 PIN0 PIN_IS_HIGH; EvDelay 400;
     EvWrite PORT_0 PIN0 PIN_IS_LOW; EvDelay 400] /\
  pushButtonState (final (exec beside_buttonCheck ledToggle_pass
                            (world_at 9600 lessThanFourSecs))) =
    moreThanFourSecs /\
  xTickCount (final (exec beside_buttonCheck ledToggle_pass
                       (world_at 9600 lessThanFourSecs))) = 10400 /\
  ~ fresh_within_new_period beside_buttonCheck
      (world_at 9600 lessThanFourSecs) 10000 moreThanFourSecs.
Proof.
  split; [vm_compute; tauto | ].
  repeat split; try reflexivity.
  unfold fresh_within_new_period. vm_compute. intros H. apply H. reflexivity.
Qed.

(** A pass of [ledToggle] run on its own, every call made at the tick it
    is due: the pass that reads the value [v] at its top lasts [period v]
    ticks, whatever the other tasks write meanwhile, so that a change of
    the global at a tick [c] of the pass is read by the next pass at most
    [period v] ticks after [c], where [v] is the value being left.  What
    holds in the running system, where [ledToggle] may be kept waiting,
    is stated further down. *)
Theorem staleness_bounded_by_current_period (E : environment) (w : world)
  (c : Z) :
  let o := exec E ledToggle_pass w in
  xTickCount w <= c <= xTickCount (final o) ->
  xTickCount (final o) - c <= period (pushButtonState w) /\
  period (pushButtonState w) <= 800 /\
  stores (trace o) = [] /\
  hd_error (trace (exec E ledToggle_pass (final o))) =
    Some (xTickCount (final o), EvGet (pushButtonState (final o))).
Proof.
  intros o Hc. subst o.
  pose proof (period_bound (pushButtonState w)) as Hp.
  pose proof (ledToggle_pass_final E w) as Hend.
  split; [lia | split; [lia | split]].
  - apply ledToggle_pass_stores.
  - apply ledToggle_pass_first.
Qed.

Lemma staleness_bounded_by_current_period_witness :
  9600 <= 10000 <= 10400 /\
  xTickCount (final (exec beside_buttonCheck ledToggle_pass
                       (world_at 9600 lessThanFourSecs))) - 10000 <= 800.
Proof.
  split; [lia | ].
  pose proof (staleness_bounded_by_current_period beside_buttonCheck
                (world_at 9600 lessThanFourSecs) 10000) as H.
  cbv zeta in H.
  assert (Hc : xTickCount (world_at 9600 lessThanFourSecs) <= 10000 <=
               xTickCount (final (exec beside_buttonCheck ledToggle_pass
                                    (world_at 9600 lessThanFourSecs))))
    by (vm_compute; split; discriminate).
  destruct (H Hc) as (H1 & H2 & _).
  lia.
Defined.

(** ** The running system *)

Lemma ledToggle_pass_writes_nothing : writes_nothing ledToggle_pass.
Proof. intros v. destruct v; cbn; exact I. Qed.

Lemma ledToggle_pass_never_halts : never_halts ledToggle_pass.
Proof. intros v. destruct v; cbn; exact I. Qed.

Lemma buttonCheck_pass_never_halts : never_halts buttonCheck_pass.
Proof.
  intros a. destruct a; cbn; [ | exact I].
  intros b. destruct b; cbn; [ | exact I].
  intros c. destruct c; cbn; exact I.
Qed.

Lemma sound_boot pins0 : sound (boot pins0).
Proof. constructor; cbn; try reflexivity; exact I. Qed.

Create HintDb sound_db.
#[local] Hint Resolve ledToggle_pass_writes_nothing
  ledToggle_pass_never_halts buttonCheck_pass_never_halts : sound_db.

Lemma sound_tick s : sound s -> sound (tick s).
Proof. intros [A B C D F G I]. constructor; assumption. Qed.

Lemma sound_run signal h s s' :
  sound s -> run_task signal h s = Some s' -> sound s'.
Proof.
  intros [A B C D F G I] Hrun. unfold run_task in Hrun.
  destruct (wake (tcb h s) <=? ticks s); [ | discriminate].
  unfold holds_last_write in I.
  destruct h; cbn [tcb] in Hrun.
  - destruct (code (led_task s)) eqn:Hc; cbn in C, D;
      try contradiction; inversion Hrun; subst; clear Hrun;
      constructor; unfold holds_last_write; cbn;
      rewrite ?A; cbn; auto with sound_db.
  - destruct (code (button_task s)) eqn:Hc; cbn in F;
      try contradiction; inversion Hrun; subst; clear Hrun;
      constructor; unfold holds_last_write; cbn;
      rewrite ?B; cbn; auto with sound_db.
Qed.

Lemma sound_step signal s s' : sound s -> sys_step signal s s' -> sound s'.
Proof.
  intros Hs [[|h] Hm]; cbn in Hm.
  - injection Hm as <-. apply sound_tick, Hs.
  - eapply sound_run; eassumption.
Qed.

Lemma sound_reachable signal s : reachable signal s -> sound s.
Proof.
  induction 1 as [pins0 | s s' _ IH Hstep].
  - apply sound_boot.
  - eapply sound_step; eassumption.
Qed.

Lemma sys_run_reachable signal ms s s' :
  reachable signal s -> sys_run signal ms s = Some s' -> reachable signal s'.
Proof.
  revert s. induction ms as [|m ms IH]; intros s Hs Hrun; cbn in Hrun.
  - injection Hrun as <-. exact Hs.
  - destruct (sys_move signal m s) as [s1|] eqn:Hm; [ | discriminate].
    apply (IH s1); [ | exact Hrun].
    eapply reachable_step; [exact Hs | exists m; exact Hm].
Qed.

Lemma buttonCheck_pass_ordered last :
  final_delay_after_medium last buttonCheck_pass.
Proof.
  intros a. destruct a; cbn; [ | exact I].
  split; [discriminate | ].
  intros b. destruct b; cbn; [ | exact I].
  split; [discriminate | ].
  intros c. destruct c; cbn; auto.
Qed.

Lemma ordered_boot pins0 : ordered (boot pins0).
Proof.
  constructor; cbn.
  - exact I.
  - intros _ H. lia.
Qed.

Lemma ordered_tick s : ordered s -> ordered (tick s).
Proof.
  intros [C B]. constructor; cbn.
  - exact C.
  - intros R H. apply B; [exact R | lia].
Qed.

Lemma ordered_run signal h s s' :
  sound s -> ordered s -> run_task signal h s = Some s' -> ordered s'.
Proof.
  intros Hs [C B] Hrun. unfold run_task in Hrun.
  destruct (Z.leb_spec (wake (tcb h s)) (ticks s)) as [Hw|Hw];
    [ | discriminate].
  destruct h; cbn [tcb] in Hrun, Hw.
  - destruct (code (led_task s)) eqn:Hc; inversion Hrun; subst; clear Hrun;
      (constructor; cbn; [exact C | exact B]).
  - pose proof (button_is_buttonCheck s Hs) as Hb.
    destruct (code (button_task s)) eqn:Hc; cbn in C;
      inversion Hrun; subst; clear Hrun; constructor; cbn;
      rewrite ?Hb; cbn;
      try solve [ apply buttonCheck_pass_ordered
                | apply C
                | intros; lia
                | intros R _; apply (proj1 C R) ].
Qed.

Lemma ordered_reachable signal s : reachable signal s -> ordered s.
Proof.
  induction 1 as [pins0 | s s' Hr IH [[|h] Hm]].
  - apply ordered_boot.
  - cbn in Hm. injection Hm as <-. apply ordered_tick, IH.
  - cbn in Hm.
    eapply ordered_run; [eapply sound_reachable | | ]; eassumption.
Qed.

Lemma cooldown_last_store signal s :
  reachable signal s -> in_cooldown s ->
  last_store buttonCheckHandler (history s) = Some lessThanFourSecs.
Proof.
  intros Hr Hc. destruct (ordered_reachable signal s Hr) as [C B].
  destruct Hc as [Hc | [Hc Hw]]; rewrite Hc in *; cbn in *.
  - apply C. reflexivity.
  - apply B; [reflexivity | exact Hw].
Qed.

Lemma run_ledToggle_frame signal s s' :
  sound s -> run_task signal ledToggleHandler s = Some s' ->
  shared s' = shared s /\
  button_task s' = button_task s /\
  ticks s' = ticks s /\
  last_store buttonCheckHandler (history s') =
    last_store buttonCheckHandler (history s).
Proof.
  intros [A B C D F G I] Hrun. unfold run_task in Hrun.
  destruct (wake (tcb ledToggleHandler s) <=? ticks s); [ | discriminate].
  cbn [tcb] in Hrun.
  destruct (code (led_task s)) eqn:Hc; cbn in C; try contradiction;
    inversion Hrun; subst; clear Hrun; cbn; auto.
Qed.


(** ** The running system with the button left alone *)

Lemma buttonCheck_pass_idle_writes : idle_writes buttonCheck_pass.
Proof.
  intros a Ha. rewrite (Ha eq_refl eq_refl). cbn. auto.
Qed.

Lemma idle_run signal h s s' :
  (forall t, signal PORT_0 PIN1 t = PIN_IS_HIGH) ->
  sound s ->
  idle_writes (code (button_task s)) /\ shared s = lessThanTwoSecs ->
  run_task signal h s = Some s' ->
  idle_writes (code (button_task s')) /\ shared s' = lessThanTwoSecs.
Proof.
  intros Hidle Hs [Hi Hsh] Hrun.
  destruct h.
  - destruct (run_ledToggle_frame signal s s' Hs Hrun) as (H1 & H2 & _).
    rewrite H1, H2. auto.
  - pose proof (button_is_buttonCheck s Hs) as Hb.
    unfold run_task in Hrun. cbn [tcb] in Hrun.
    destruct (wake (button_task s) <=? ticks s); [ | discriminate].
    destruct (code (button_task s)) eqn:Hc; cbn in Hi;
      inversion Hrun; subst; clear Hrun; cbn; rewrite ?Hb;
      try solve [ split; [apply buttonCheck_pass_idle_writes | assumption]
                | split; assumption
                | split; [apply Hi | assumption]
                | destruct Hi as [-> Hi]; split; [exact Hi | reflexivity] ].
    split; [ | assumption]. apply Hi. intros -> ->. apply Hidle.
Qed.

Lemma idle_reachable signal s :
  (forall t, signal PORT_0 PIN1 t = PIN_IS_HIGH) ->
  reachable signal s -> shared s = lessThanTwoSecs.
Proof.
  intros Hidle Hr.
  cut (idle_writes (code (button_task s)) /\ shared s = lessThanTwoSecs).
  { intros [_ H]. exact H. }
  induction Hr as [pins0 | s s' Hr IH [[|h] Hm]].
  - cbn. auto.
  - cbn in Hm. injection Hm as <-. exact IH.
  - cbn in Hm.
    apply (idle_run signal h s s' Hidle (sound_reachable signal s Hr) IH Hm).
Qed.

(** C2. Idle default.  When the button line never reads pressed, then
    after every pass of the loop of [buttonCheck] (after [S n] passes,
    for every [n]) the global holds [lessThanTwoSecs] (Short), every
    value written so far is [lessThanTwoSecs], and the passes take no
    time.  In the running system, under any scheduling of the two tasks,
    the global holds [lessThanTwoSecs] in every state that can be
    reached. *)
Theorem idle_default (E : environment) (w : world) (n : nat) :
  never_pressed E ->
  let o := passes E buttonCheck_pass (S n) w in
  pushButtonState (final o) = lessThanTwoSecs /\
  stores (trace o) = repeat lessThanTwoSecs (S n) /\
  xTickCount (final o) = xTickCount w /\
  value o = Some tt /\
  (forall s, reachable (level E) s -> shared s = lessThanTwoSecs).
Proof.
  intros Hidle.
  cut (let o := passes E buttonCheck_pass (S n) w in
       pushButtonState (final o) = lessThanTwoSecs /\
       stores (trace o) = repeat lessThanTwoSecs (S n) /\
       xTickCount (final o) = xTickCount w /\
       value o = Some tt).
  { cbv zeta. intros (H1 & H2 & H3 & H4). repeat split; try assumption.
    intros s Hr. apply (idle_reachable (level E) s Hidle Hr). }
  revert w.
  induction n as [|n IH]; intros w.
  - cbn [passes]. rewrite (idle_pass E w Hidle). cbn. auto.
  - change (passes E buttonCheck_pass (S (S n)) w)
      with (let o := exec E buttonCheck_pass w in
            match value o with
            | Some _ =>
                let o' := passes E buttonCheck_pass (S n) (final o) in
                mkOutcome (trace o ++ trace o') (final o') (value o')
            | None => o
            end).
    rewrite (idle_pass E w Hidle). cbv zeta. cbn [value final trace].
    specialize (IH (mkWorld (xTickCount w) lessThanTwoSecs (latch w))).
    cbv zeta in IH. destruct IH as (Hc & Hs & Ht & Hv).
    repeat split; try assumption.
    rewrite stores_app, Hs. reflexivity.
Qed.

Lemma idle_default_witness :
  never_pressed untouched /\
  pushButtonState
    (final (passes untouched buttonCheck_pass 3
              (world_at 0 moreThanFourSecs))) = lessThanTwoSecs.
Proof.
  assert (H : never_pressed untouched) by (intros t; reflexivity).
  split; [exact H | ].
  apply (idle_default untouched (world_at 0 moreThanFourSecs) 2 H).
Defined.

(** ** The shared global in the running system *)

(** C5. Shared classification state.  When the scheduler starts, the
    global holds [lessThanTwoSecs] (Short) and nothing has been written.
    In every state the system can reach, under any scheduling of the two
    tasks, the global holds [lessThanTwoSecs] as long as [buttonCheck] has
    not written it, and afterwards the value [buttonCheck] wrote last. *)
Theorem shared_state_is_last_classification
  (signal : portX_t -> pinX_t -> Z -> pinState_t) (s : system) :
  reachable signal s ->
  (forall pins0,
     shared (boot pins0) = lessThanTwoSecs /\ history (boot pins0) = []) /\
  (last_store buttonCheckHandler (history s) = None ->
   shared s = lessThanTwoSecs) /\
  (forall v, last_store buttonCheckHandler (history s) = Some v ->
   shared s = v).
Proof.
  intros Hr.
  pose proof (shared_is_last_write s (sound_reachable signal s Hr)) as H.
  unfold holds_last_write in H.
  split; [intros pins0; split; reflexivity | ].
  split.
  - intros Hnone. rewrite Hnone in H. exact H.
  - intros v Hsome. rewrite Hsome in H. exact H.
Qed.

Lemma cooldown_state_reachable : reachable down_until_3000 cooldown_state.
Proof.
  apply (sys_run_reachable down_until_3000 schedule_to_cooldown
           (boot all_low)).
  - apply reachable_boot.
  - vm_compute. reflexivity.
Qed.

Lemma shared_state_is_last_classification_witness :
  reachable down_until_3000 cooldown_state /\
  last_store buttonCheckHandler (history cooldown_state) =
    Some lessThanFourSecs /\
  shared cooldown_state = lessThanFourSecs.
Proof.
  split; [exact cooldown_state_reachable | ].
  split; [reflexivity | ].
  apply (shared_state_is_last_classification down_until_3000 cooldown_state
           cooldown_state_reachable).
  reflexivity.
Defined.

(** C7. The blink driver never writes the global.  A pass of [ledToggle]
    contains no write of the global and, when no other task writes it,
    leaves it as it found it.  In the running system, under any
    scheduling, a call made by [ledToggle] leaves the global unchanged,
    [ledToggle] has written nothing so far, and the global still holds
    the value [buttonCheck] wrote last ([lessThanTwoSecs] before its first
    write).  The global is modelled as a cell that holds one enumerator,
    read and written as a whole. *)
Theorem ledToggle_never_writes
  (signal : portX_t -> pinX_t -> Z -> pinState_t) (s s' : system) :
  reachable signal s ->
  run_task signal ledToggleHandler s = Some s' ->
  shared s' = shared s /\
  last_store ledToggleHandler (history s') = None /\
  holds_last_write s' /\
  (forall E w,
     stores (trace (exec E ledToggle_pass w)) = [] /\
     (quiet E ->
      pushButtonState (final (exec E ledToggle_pass w)) =
        pushButtonState w)).
Proof.
  intros Hr Hrun.
  pose proof (sound_reachable signal s Hr) as Hs.
  pose proof (sound_run signal ledToggleHandler s s' Hs Hrun) as Hs'.
  destruct (run_ledToggle_frame signal s s' Hs Hrun) as (Hsh & _).
  split; [exact Hsh | ].
  split; [apply (led_never_wrote s' Hs') | ].
  split; [apply (shared_is_last_write s' Hs') | ].
  intros E w. split; [apply ledToggle_pass_stores | ].
  intros Q. destruct w as [t v l]. unfold ledToggle_pass. cbn.
  destruct v; cbn; rewrite ?Q; reflexivity.
Qed.

Lemma ledToggle_never_writes_witness :
  reachable down_until_3000 cooldown_state /\
  run_task down_until_3000 ledToggleHandler cooldown_state =
    Some cooldown_state_read /\
  shared cooldown_state_read = shared cooldown_state.
Proof.
  split; [exact cooldown_state_reachable | ].
  split; [reflexivity | ].
  apply (ledToggle_never_writes down_until_3000 cooldown_state
           cooldown_state_read cooldown_state_reachable).
  reflexivity.
Defined.

(** C10. Medium is written before the cooldown.  Whenever [buttonCheck]
    is about to call the delay that ends a pass, or is blocked in it, the
    last value it wrote is [lessThanFourSecs] (Medium) and the global
    holds it; a call made by [ledToggle] meanwhile leaves this so, and
    when that call is its read of the global it goes on with the value
    [lessThanFourSecs]. *)
Theorem medium_visible_during_cooldown
  (signal : portX_t -> pinX_t -> Z -> pinState_t) (s : system) :
  reachable signal s ->
  in_cooldown s ->
  last_store buttonCheckHandler (history s) = Some lessThanFourSecs /\
  shared s = lessThanFourSecs /\
  (forall s', run_task signal ledToggleHandler s = Some s' ->
     shared s' = lessThanFourSecs /\
     in_cooldown s' /\
     (forall k, code (led_task s) = GetState k ->
                code (led_task s') = k lessThanFourSecs)).
Proof.
  intros Hr Hc.
  pose proof (sound_reachable signal s Hr) as Hs.
  pose proof (cooldown_last_store signal s Hr Hc) as Hlast.
  pose proof (shared_is_last_write s Hs) as Hsh.
  unfold holds_last_write in Hsh. rewrite Hlast in Hsh.
  split; [exact Hlast | ]. split; [exact Hsh | ].
  intros s' Hrun.
  destruct (run_ledToggle_frame signal s s' Hs Hrun) as (H1 & H2 & H3 & _).
  split; [congruence | ].
  split.
  - unfold in_cooldown in *. rewrite H2, H3. exact Hc.
  - intros k Hk. unfold run_task in Hrun. cbn [tcb] in Hrun.
    rewrite Hk in Hrun.
    destruct (wake (led_task s) <=? ticks s); [ | discriminate].
    injection Hrun as <-. cbn. rewrite Hsh. reflexivity.
Qed.

Lemma medium_visible_during_cooldown_witness :
  reachable down_until_3000 cooldown_state /\
  in_cooldown cooldown_state /\
  shared cooldown_state = lessThanFourSecs.
Proof.
  assert (Hc : in_cooldown cooldown_state)
    by (right; split; [reflexivity | cbn; lia]).
  split; [exact cooldown_state_reachable | ].
  split; [exact Hc | ].
  exact (proj1 (proj2 (medium_visible_during_cooldown down_until_3000
                         cooldown_state cooldown_state_reachable Hc))).
Defined.

(** In a pass the write of [lessThanFourSecs] and the delay are made at
    the same tick, the write first. *)
Example medium_then_delay :
  trace (exec (press 0 3000) buttonCheck_pass (world_at 0 lessThanTwoSecs)) =
    [(0, EvRead PORT_0 PIN1 PIN_IS_LOW); (0, EvDelay 2000);
     (2000, EvRead PORT_0 PIN1 PIN_IS_LOW); (2000, EvDelay 2000);
     (4000, EvRead PORT_0 PIN1 PIN_IS_HIGH);
     (4000, EvSet lessThanFourSecs); (4000, EvDelay 2000)].
Proof. reflexivity. Qed.

(** ** The entry point and the assertions at task entry *)

Lemma created_by_main H n a :
  In a (created (main H n)) ->
  a = create_ledToggle \/ a = create_buttonCheck.
Proof.
  revert a. induction n as [|n IH]; intros a Ha; cbn in Ha.
  - contradiction.
  - unfold main_step, xTaskCreate in Ha.
    destruct (pc (main H n)); cbn in Ha; try (apply IH; exact Ha).
    + destruct (fits_ledToggle H); [ | apply IH; exact Ha].
      apply in_app_or in Ha. destruct Ha as [Ha | [<- | []]]; auto.
    + destruct (fits_buttonCheck H); [ | apply IH; exact Ha].
      apply in_app_or in Ha. destruct Ha as [Ha | [<- | []]]; auto.
Qed.

(** C8. The assertions at task entry.  Every task that [main] creates is
    created with the parameter 1, so the assertion at its entry,
    [(uint32_t) pvParameters == 1], holds and the code before the loop
    runs to its end; in the running system no task is ever stopped by a
    failed assertion. *)
Theorem task_assertions_hold (H : heap_t) (n : nat) (a : xTaskCreate_args) :
  In a (created (main H n)) ->
  pvParameters a = 1 /\
  (uint32_t (pvParameters a) =? 1) = true /\
  prologue (pxTaskCode a) (pvParameters a) = Ret tt /\
  (forall E w,
     value (exec E (prologue (pxTaskCode a) (pvParameters a)) w) =
       Some tt) /\
  (forall signal s h, reachable signal s -> code (tcb h s) <> Halt).
Proof.
  intros Ha.
  assert (Hp : pvParameters a = 1 /\
               prologue (pxTaskCode a) (pvParameters a) = Ret tt).
  { destruct (created_by_main H n a Ha) as [-> | ->]; split; reflexivity. }
  destruct Hp as [Hp Hpro].
  split; [exact Hp | ].
  split; [rewrite Hp; reflexivity | ].
  split; [exact Hpro | ].
  split; [intros E w; rewrite Hpro; reflexivity | ].
  intros signal s h Hr Hhalt.
  pose proof (sound_reachable signal s Hr) as Hs.
  destruct h; cbn [tcb] in Hhalt.
  - pose proof (led_never_halts s Hs) as Hn. rewrite Hhalt in Hn. exact Hn.
  - pose proof (button_never_halts s Hs) as Hn. rewrite Hhalt in Hn.
    exact Hn.
Qed.

Lemma task_assertions_hold_witness :
  In create_buttonCheck (created (main roomy 3)) /\
  prologue (pxTaskCode create_buttonCheck) (pvParameters create_buttonCheck) =
    Ret tt.
Proof.
  assert (Hin : In create_buttonCheck (created (main roomy 3)))
    by (simpl; right; left; reflexivity).
  split; [exact Hin | ].
  apply (task_assertions_hold roomy 3 create_buttonCheck Hin).
Defined.

(** With normal room in the heap [main] creates both tasks, as [boot] has
    them. *)
Example main_creates_both :
  main roomy 4 =
    mkMain in_scheduler [create_ledToggle; create_buttonCheck].
Proof. reflexivity. Qed.

(** A task started with another parameter would be stopped. *)
Example assertion_fails_on_another_parameter :
  prologue ledToggle 2 = Halt /\ prologue buttonCheck 0 = Halt.
Proof. split; reflexivity. Qed.

Lemma main_pc_after_start H n :
  pc (main H (4 + n)) = if fits_idle H then in_scheduler else at_for_ever.
Proof.
  induction n as [|n IH].
  - reflexivity.
  - replace (4 + S n)%nat with (S (4 + n))%nat by lia.
    change (main H (S (4 + n))) with (main_step H (main H (4 + n))).
    destruct (fits_idle H); unfold main_step; rewrite IH; exact IH.
Qed.

Lemma main_pc_before_start H n v :
  (n < 4)%nat -> pc (main H n) <> returned v.
Proof.
  intros Hn.
  destruct n as [|[|[|[|n]]]]; try lia; cbn; discriminate.
Qed.

(** C9. The entry point does not return.  Whatever room the heap has,
    [main] never reaches its exit, however many steps it takes.  From
    its fourth step on, control is in the scheduler, which keeps it, when
    the idle task could be created; when the heap had no room for the
    idle task, control is in the empty endless loop at the end of
    [main]. *)
Theorem main_never_returns (H : heap_t) (n : nat) :
  (forall v, pc (main H n) <> returned v) /\
  pc (main H (4 + n)) = (if fits_idle H then in_scheduler else at_for_ever).
Proof.
  split; [ | apply main_pc_after_start].
  intros v.
  destruct (Nat.lt_ge_cases n 4) as [Hlt | Hge].
  - apply main_pc_before_start. exact Hlt.
  - replace n with (4 + (n - 4))%nat by lia.
    rewrite main_pc_after_start.
    destruct (fits_idle H); discriminate.
Qed.

Example main_in_both_cases :
  pc (main roomy 1000) = in_scheduler /\ pc (main cramped 1000) = at_for_ever.
Proof. split; reflexivity. Qed.

(** * Further properties *)

(** ** Passes of [buttonCheck] in time *)

Lemma stamped_stores_app tr tr' :
  stamped_stores (tr ++ tr') = stamped_stores tr ++ stamped_stores tr'.
Proof.
  induction tr as [|[t e] tr IH]; [reflexivity|].
  destruct e; cbn; rewrite ?IH; reflexivity.
Qed.

Lemma buttonCheck_pass_stamped E w :
  stamped_stores (trace (exec E buttonCheck_pass w)) =
    [(xTickCount w + sampling_time E w, verdict E w)].
Proof.
  sample_cases E w; rewrite ?Z.add_0_r, <- ?Z.add_assoc;
    change (2000 + 2000) with 4000; reflexivity.
Qed.

Lemma buttonCheck_pass_shape E w :
  (1 <= reads (trace (exec E buttonCheck_pass w)) <= 3)%nat /\
  (forall n, In n (delays (trace (exec E buttonCheck_pass w))) ->
             n = 2000) /\
  0 <= sampling_time E w <= 4000 /\
  0 <= cooldown (verdict E w) <= 2000 /\
  (sampling_time E w + cooldown (verdict E w) = 0 <->
   level E PORT_0 PIN1 (xTickCount w) = PIN_IS_HIGH).
Proof.
  sample_cases E w; repeat split; try lia; try discriminate;
    try (intros n Hn; cbn in Hn; intuition lia).
Qed.

(** X1. Latency of a pass.  A pass of [buttonCheck] reads the button line
    at least once and at most three times, every delay it calls is of
    2000 ticks, it writes the global no later than 4000 ticks after it
    started and is over no later than 6000 ticks after it started.  It
    takes no time at all exactly when its first read finds the line
    high. *)
Theorem buttonCheck_pass_latency (E : environment) (w : world) :
  let o := exec E buttonCheck_pass w in
  (1 <= reads (trace o) <= 3)%nat /\
  (forall n, In n (delays (trace o)) -> n = 2000) /\
  (exists t, store_tick (trace o) = Some t /\
             xTickCount w <= t <= xTickCount w + 4000 /\
             t <= xTickCount (final o) <= xTickCount w + 6000) /\
  (xTickCount (final o) = xTickCount w <->
   level E PORT_0 PIN1 (xTickCount w) = PIN_IS_HIGH).
Proof.
  intros o. subst o.
  destruct (buttonCheck_pass_shape E w) as (Hr & Hd & Hs & Hc & Hz).
  destruct (buttonCheck_pass_after_store E w) as [Ht _].
  destruct (buttonCheck_pass_final E w) as [Hend _].
  split; [exact Hr | ]. split; [exact Hd | ]. split.
  - exists (xTickCount w + sampling_time E w).
    split; [exact Ht | ]. rewrite Hend. lia.
  - rewrite Hend. rewrite <- Hz. lia.
Qed.

Lemma same_samples_verdict E E' w :
  same_samples E E' w ->
  verdict E w = verdict E' w /\ sampling_time E w = sampling_time E' w.
Proof.
  intros (H0 & H1 & H2). unfold verdict, sampling_time.
  rewrite !sample_0, !sample_1, !sample_2.
  replace (xTickCount w + 2000 + 2000) with (xTickCount w + 4000) by lia.
  rewrite H0, H1, H2. split; reflexivity.
Qed.

(** X2. Level sampling, no memory.  What a pass of [buttonCheck] does
    depends only on the tick at which it starts and on the level of the
    button line at the ticks 0, 2000 and 4000 of the pass: started at the
    same tick in two surroundings that agree at these three ticks, it
    makes the same calls at the same ticks and ends at the same tick,
    whatever the line does in between, whatever the global and the
    output lines hold, and whatever the other tasks do. *)
Theorem buttonCheck_sees_only_samples (E E' : environment) (w w' : world) :
  xTickCount w' = xTickCount w ->
  same_samples E E' w ->
  trace (exec E buttonCheck_pass w) = trace (exec E' buttonCheck_pass w') /\
  xTickCount (final (exec E buttonCheck_pass w)) =
    xTickCount (final (exec E' buttonCheck_pass w')).
Proof.
  intros Ht (H0 & H1 & H2).
  replace (xTickCount w + 4000) with (xTickCount w + 2000 + 2000) in H2
    by lia.
  unfold buttonCheck_pass; cbn. rewrite Ht.
  rewrite <- H0.
  destruct (level E PORT_0 PIN1 (xTickCount w)); cbn; rewrite ?Ht;
    [ | split; reflexivity].
  rewrite <- H1.
  destruct (level E PORT_0 PIN1 (xTickCount w + 2000)); cbn; rewrite ?Ht;
    [ | split; reflexivity].
  rewrite <- H2.
  destruct (level E PORT_0 PIN1 (xTickCount w + 2000 + 2000)); cbn;
    rewrite ?Ht; split; reflexivity.
Qed.

Lemma buttonCheck_sees_only_samples_witness :
  same_samples (press 0 3000) press_with_gap (world_at 0 lessThanTwoSecs) /\
  level (press 0 3000) PORT_0 PIN1 1000 <>
    level press_with_gap PORT_0 PIN1 1000 /\
  trace (exec (press 0 3000) buttonCheck_pass
           (world_at 0 lessThanTwoSecs)) =
    trace (exec press_with_gap buttonCheck_pass
             (world_at 0 moreThanFourSecs)).
Proof.
  assert (H : same_samples (press 0 3000) press_with_gap
                (world_at 0 lessThanTwoSecs))
    by (repeat split; reflexivity).
  split; [exact H | ].
  split; [simpl; discriminate | ].
  apply (buttonCheck_sees_only_samples (press 0 3000) press_with_gap
           (world_at 0 lessThanTwoSecs) (world_at 0 moreThanFourSecs)
           eq_refl H).
Defined.

Lemma sampling_after_long E w :
  verdict E w = moreThanFourSecs ->
  level E PORT_0 PIN1 (xTickCount w + 4000) = PIN_IS_LOW.
Proof.
  unfold verdict. rewrite sample_0, sample_1, sample_2.
  replace (xTickCount w + 2000 + 2000) with (xTickCount w + 4000) by lia.
  destruct (level E PORT_0 PIN1 (xTickCount w));
    destruct (level E PORT_0 PIN1 (xTickCount w + 2000));
    destruct (level E PORT_0 PIN1 (xTickCount w + 4000));
    try discriminate; reflexivity.
Qed.

Lemma sampling_time_pressed E w :
  level E PORT_0 PIN1 (xTickCount w) = PIN_IS_LOW ->
  2000 <= sampling_time E w.
Proof.
  unfold sampling_time. rewrite sample_0, sample_1. intros ->.
  destruct (level E PORT_0 PIN1 (xTickCount w + 2000)); lia.
Qed.

Lemma sampling_time_bounds E w : 0 <= sampling_time E w <= 4000.
Proof.
  unfold sampling_time.
  destruct (sample E w 0); destruct (sample E w 1); lia.
Qed.

Lemma verdict_long_sampling E w :
  verdict E w = moreThanFourSecs -> sampling_time E w = 4000.
Proof.
  unfold verdict, sampling_time.
  destruct (sample E w 0); destruct (sample E w 1);
    destruct (sample E w 2); try discriminate; reflexivity.
Qed.

(** X3. A verdict other than Short stays for 2000 ticks.  When a pass of
    [buttonCheck] writes [lessThanFourSecs] or [moreThanFourSecs] at tick
    [t1], the next pass writes the global at tick [t1 + 2000] at the
    earliest: after [lessThanFourSecs] because of the delay that ends the
    pass, after [moreThanFourSecs] because the next pass starts at the
    very tick at which the line was last sampled low, and so waits. *)
Theorem verdict_stays_2000_ticks (E : environment) (w : world)
  (v : pushButtonStates) (t1 t2 : Z) :
  let o1 := exec E buttonCheck_pass w in
  let o2 := exec E buttonCheck_pass (final o1) in
  stamped_stores (trace o1) = [(t1, v)] ->
  v <> lessThanTwoSecs ->
  store_tick (trace o2) = Some t2 ->
  t1 + 2000 <= t2.
Proof.
  intros o1 o2 H1 Hv H2. subst o1 o2.
  rewrite buttonCheck_pass_stamped in H1.
  destruct (buttonCheck_pass_final E w) as [Hend _].
  remember (final (exec E buttonCheck_pass w)) as w1 eqn:Hw1.
  destruct (buttonCheck_pass_after_store E w1) as [Hst _].
  pose proof (sampling_time_bounds E w1) as Hb.
  assert (Ht1 : t1 = xTickCount w + sampling_time E w) by congruence.
  assert (Hverdict : verdict E w = v) by congruence.
  assert (Ht2 : t2 = xTickCount w1 + sampling_time E w1) by congruence.
  clear H1 H2 Hst.
  destruct v; [contradiction | | ].
  - rewrite Hverdict in Hend. unfold cooldown in Hend. lia.
  - pose proof (sampling_after_long E w Hverdict) as Hlow.
    pose proof (verdict_long_sampling E w Hverdict) as H4.
    rewrite Hverdict in Hend. unfold cooldown in Hend.
    assert (Htick : xTickCount w1 = xTickCount w + 4000) by lia.
    pose proof (sampling_time_pressed E w1) as Hp.
    rewrite Htick in Hp. specialize (Hp Hlow). lia.
Qed.

Lemma verdict_stays_2000_ticks_witness :
  stamped_stores
    (trace (exec (press 0 5000) buttonCheck_pass
              (world_at 0 lessThanTwoSecs))) = [(4000, moreThanFourSecs)] /\
  store_tick
    (trace (exec (press 0 5000) buttonCheck_pass
              (final (exec (press 0 5000) buttonCheck_pass
                        (world_at 0 lessThanTwoSecs))))) = Some 6000 /\
  4000 + 2000 <= 6000.
Proof.
  split; [reflexivity | ]. split; [reflexivity | ].
  apply (verdict_stays_2000_ticks (press 0 5000)
           (world_at 0 lessThanTwoSecs) moreThanFourSecs 4000 6000).
  - reflexivity.
  - discriminate.
  - reflexivity.
Defined.

(** Nothing of the kind holds after [lessThanTwoSecs]: the next pass may
    write at the same tick. *)
Example short_is_rewritten_at_once :
  stamped_stores
    (trace (passes (press 0 1000) buttonCheck_pass 3
              (world_at 0 lessThanTwoSecs))) =
    [(2000, lessThanTwoSecs); (2000, lessThanTwoSecs);
     (2000, lessThanTwoSecs)].
Proof. reflexivity. Qed.

Lemma two_passes E w :
  trace (passes E buttonCheck_pass 2 w) =
    trace (exec E buttonCheck_pass w) ++
    trace (exec E buttonCheck_pass (final (exec E buttonCheck_pass w))) /\
  final (passes E buttonCheck_pass 2 w) =
    final (exec E buttonCheck_pass
             (final (exec E buttonCheck_pass w))).
Proof.
  cbn [passes]. rewrite buttonCheck_pass_value.
  cbn [passes trace final value]. rewrite buttonCheck_pass_value.
  cbn [trace final value]. rewrite app_nil_r. split; reflexivity.
Qed.

(** X4. Back to Short at tick 6000.  The button goes down when a pass of
    [buttonCheck] starts, is held for [d] ticks with [2000 <= d < 6000]
    and is then left alone.  The first two passes write the global twice:
    at tick 4000 of the press with [lessThanFourSecs] when [d < 4000] and
    with [moreThanFourSecs] otherwise, and at tick 6000 with
    [lessThanTwoSecs]; the second pass ends at that tick.  So both
    verdicts are shown for exactly 2000 ticks. *)
Theorem press_is_shown_for_2000_ticks (E : environment) (w : world)
  (d : Z) :
  2000 <= d < 6000 ->
  held_then_released E (xTickCount w) d ->
  let o := passes E buttonCheck_pass 2 w in
  stamped_stores (trace o) =
    [(xTickCount w + 4000,
      if d <? 4000 then lessThanFourSecs else moreThanFourSecs);
     (xTickCount w + 6000, lessThanTwoSecs)] /\
  xTickCount (final o) = xTickCount w + 6000.
Proof.
  intros Hd [Hlow Hhigh] o. subst o.
  destruct (two_passes E w) as [Htr Hfin]. rewrite Htr, Hfin. clear Htr Hfin.
  rewrite stamped_stores_app, !buttonCheck_pass_stamped.
  pose proof (buttonCheck_pass_final E w) as [Hend1 _].
  pose proof (buttonCheck_pass_final E
                (final (exec E buttonCheck_pass w))) as [Hend2 _].
  rewrite Hend2. clear Hend2.
  set (w1 := final (exec E buttonCheck_pass w)) in *.
  assert (H0 : sample E w 0 = PIN_IS_LOW)
    by (rewrite sample_0; apply Hlow; lia).
  assert (H1 : sample E w 1 = PIN_IS_LOW)
    by (rewrite sample_1; apply Hlow; lia).
  assert (Hs : sampling_time E w = 4000)
    by (unfold sampling_time; rewrite H0, H1; reflexivity).
  assert (Hrest :
            xTickCount w1 + sampling_time E w1 = xTickCount w + 6000 /\
            verdict E w1 = lessThanTwoSecs /\
            verdict E w =
              if d <? 4000 then lessThanFourSecs else moreThanFourSecs).
  { destruct (Z.ltb_spec d 4000) as [H4 | H4].
    - assert (H2 : sample E w 2 = PIN_IS_HIGH)
        by (rewrite sample_2; apply Hhigh; lia).
      assert (Hv : verdict E w = lessThanFourSecs)
        by (unfold verdict; rewrite H0, H1, H2; reflexivity).
      rewrite Hv, Hs in Hend1. unfold cooldown in Hend1.
      assert (H0' : sample E w1 0 = PIN_IS_HIGH)
        by (rewrite sample_0, Hend1; apply Hhigh; lia).
      split; [ | split; [ | exact Hv]].
      + unfold sampling_time. rewrite H0'. lia.
      + unfold verdict. rewrite H0'. reflexivity.
    - assert (H2 : sample E w 2 = PIN_IS_LOW)
        by (rewrite sample_2; apply Hlow; lia).
      assert (Hv : verdict E w = moreThanFourSecs)
        by (unfold verdict; rewrite H0, H1, H2; reflexivity).
      rewrite Hv, Hs in Hend1. unfold cooldown in Hend1.
      assert (H0' : sample E w1 0 = PIN_IS_LOW)
        by (rewrite sample_0, Hend1; apply Hlow; lia).
      assert (H1' : sample E w1 1 = PIN_IS_HIGH)
        by (rewrite sample_1, Hend1; apply Hhigh; lia).
      split; [ | split; [ | exact Hv]].
      + unfold sampling_time. rewrite H0', H1'. lia.
      + unfold verdict. rewrite H0', H1'. reflexivity. }
  destruct Hrest as (Ht & Hv' & Hv).
  rewrite Ht, Hv', Hv, Hs. unfold cooldown. cbn [app].
  split; [reflexivity | lia].
Qed.

Lemma press_is_shown_for_2000_ticks_witness :
  held_then_released (press 0 5000)
    (xTickCount (world_at 0 lessThanTwoSecs)) 5000 /\
  stamped_stores
    (trace (passes (press 0 5000) buttonCheck_pass 2
              (world_at 0 lessThanTwoSecs))) =
    [(4000, moreThanFourSecs); (6000, lessThanTwoSecs)].
Proof.
  assert (H : held_then_released (press 0 5000)
                (xTickCount (world_at 0 lessThanTwoSecs)) 5000).
  { split; intros t Ht; simpl in *;
      destruct (Z.leb_spec 0 t); destruct (Z.leb_spec t 5000);
      simpl; try reflexivity; lia. }
  split; [exact H | ].
  apply (press_is_shown_for_2000_ticks (press 0 5000)
           (world_at 0 lessThanTwoSecs) 5000 ltac:(lia) H).
Defined.

Lemma pressed_pass E w :
  always_pressed E ->
  exec E buttonCheck_pass w =
    mkOutcome
      [(xTickCount w, EvRead PORT_0 PIN1 PIN_IS_LOW);
       (xTickCount w, EvDelay 2000);
       (xTickCount w + 2000, EvRead PORT_0 PIN1 PIN_IS_LOW);
       (xTickCount w + 2000, EvDelay 2000);
       (xTickCount w + 2000 + 2000, EvRead PORT_0 PIN1 PIN_IS_LOW);
       (xTickCount w + 2000 + 2000, EvSet moreThanFourSecs)]
      (mkWorld (xTickCount w + 2000 + 2000) moreThanFourSecs (latch w))
      (Some tt).
Proof.
  intros Hp. unfold buttonCheck_pass. cbn.
  rewrite (Hp (xTickCount w)). cbn.
  rewrite (Hp (xTickCount w + 2000)). cbn.
  rewrite (Hp (xTickCount w + 2000 + 2000)). reflexivity.
Qed.

(** X5. A button kept down.  While the button line reads pressed at every
    tick, every pass of [buttonCheck] lasts 4000 ticks and writes
    [moreThanFourSecs]: after [S n] passes the global holds
    [moreThanFourSecs], it has been written [S n] times with that value,
    at the ticks 4000, 8000, ... of the run, whatever the other tasks
    do. *)
Theorem kept_down_is_long (E : environment) (w : world) (n : nat) :
  always_pressed E ->
  let o := passes E buttonCheck_pass (S n) w in
  pushButtonState (final o) = moreThanFourSecs /\
  stamped_stores (trace o) =
    map (fun k => (xTickCount w + 4000 * Z.of_nat k, moreThanFourSecs))
        (seq 1 (S n)) /\
  xTickCount (final o) = xTickCount w + 4000 * Z.of_nat (S n) /\
  value o = Some tt.
Proof.
  intros Hp. revert w.
  induction n as [|n IH]; intros w.
  - cbn [passes]. rewrite (pressed_pass E w Hp).
    cbn [value final trace passes pushButtonState xTickCount].
    rewrite app_nil_r. cbn [stamped_stores seq map].
    split; [reflexivity | ]. split; [ | split; [lia | reflexivity]].
    f_equal. f_equal. lia.
  - change (passes E buttonCheck_pass (S (S n)) w)
      with (let o := exec E buttonCheck_pass w in
            match value o with
            | Some _ =>
                let o' := passes E buttonCheck_pass (S n) (final o) in
                mkOutcome (trace o ++ trace o') (final o') (value o')
            | None => o
            end).
    rewrite (pressed_pass E w Hp). cbv zeta. cbn [value final trace].
    specialize (IH (mkWorld (xTickCount w + 2000 + 2000) moreThanFourSecs
                      (latch w))).
    cbv zeta in IH. destruct IH as (Hc & Hs & Ht & Hv).
    cbn [xTickCount] in Hs, Ht.
    split; [exact Hc | ]. split; [ | split; [ | exact Hv]].
    + rewrite stamped_stores_app, Hs.
      change (seq 1 (S (S n))) with (1%nat :: seq 2 (S n)).
      rewrite <- (seq_shift (S n) 1). cbn [stamped_stores app].
      rewrite (map_cons _ 1%nat), map_map.
      f_equal; [f_equal; lia | ].
      apply map_ext. intros k. f_equal. lia.
    + rewrite Ht. lia.
Qed.

Lemma kept_down_is_long_witness :
  always_pressed kept_down /\
  stamped_stores
    (trace (passes kept_down buttonCheck_pass 3
              (world_at 0 lessThanTwoSecs))) =
    [(4000, moreThanFourSecs); (8000, moreThanFourSecs);
     (12000, moreThanFourSecs)].
Proof.
  assert (H : always_pressed kept_down) by (intros t; reflexivity).
  split; [exact H | ].
  apply (kept_down_is_long kept_down (world_at 0 lessThanTwoSecs) 2 H).
Defined.

(** ** Passes of [ledToggle] in time *)

Lemma ledToggle_pass_world E w :
  quiet E ->
  value (exec E ledToggle_pass w) = Some tt /\
  xTickCount (final (exec E ledToggle_pass w)) =
    xTickCount w + period (pushButtonState w) /\
  pushButtonState (final (exec E ledToggle_pass w)) = pushButtonState w /\
  actions (trace (exec E ledToggle_pass w)) =
    actions (trace (exec E ledToggle_pass
                      (mkWorld 0 (pushButtonState w) (latch w)))).
Proof.
  intros Q. destruct w as [t v l]. unfold ledToggle_pass. cbn.
  destruct v; cbn; rewrite ?Q; repeat split; lia.
Qed.

Lemma ledToggle_pass_actions_by_state E w w' :
  pushButtonState w = pushButtonState w' ->
  actions (trace (exec E ledToggle_pass w)) =
    actions (trace (exec E ledToggle_pass w')).
Proof.
  destruct w as [t v l], w' as [t' v' l']. cbn. intros <-.
  unfold ledToggle_pass. cbn. destruct v; reflexivity.
Qed.

Lemma actions_app tr tr' : actions (tr ++ tr') = actions tr ++ actions tr'.
Proof. apply map_app. Qed.

(** X6. Steady blinking.  When no other task writes the global, [n]
    passes of [ledToggle] that start with the global at [v] leave it at
    [v], make [n] times the calls of the first pass, and end [n] times
    [period v] ticks later: 800 ticks a pass for [lessThanFourSecs], 200
    for [moreThanFourSecs], none for [lessThanTwoSecs]. *)
Theorem ledToggle_blinks_steadily (E : environment) (w : world) (n : nat) :
  quiet E ->
  let o := passes E ledToggle_pass n w in
  pushButtonState (final o) = pushButtonState w /\
  xTickCount (final o) =
    xTickCount w + Z.of_nat n * period (pushButtonState w) /\
  actions (trace o) =
    List.concat (repeat (actions (trace (exec E ledToggle_pass w))) n) /\
  value o = Some tt.
Proof.
  intros Q. revert w.
  induction n as [|n IH]; intros w.
  - cbn. repeat split; lia.
  - change (passes E ledToggle_pass (S n) w)
      with (let o := exec E ledToggle_pass w in
            match value o with
            | Some _ =>
                let o' := passes E ledToggle_pass n (final o) in
                mkOutcome (trace o ++ trace o') (final o') (value o')
            | None => o
            end).
    cbv zeta.
    destruct (ledToggle_pass_world E w Q) as (Hv & Ht & Hs & _).
    rewrite Hv. cbn [trace final value].
    specialize (IH (final (exec E ledToggle_pass w))). cbv zeta in IH.
    destruct IH as (IHs & IHt & IHa & IHv).
    split; [congruence | ]. split; [ | split; [ | exact IHv]].
    + rewrite IHt, Ht, Hs. lia.
    + rewrite actions_app, IHa. cbn [repeat List.concat].
      f_equal. f_equal. f_equal.
      apply ledToggle_pass_actions_by_state. exact Hs.
Qed.

Lemma ledToggle_blinks_steadily_witness :
  quiet untouched /\
  xTickCount (final (passes untouched ledToggle_pass 5
                       (world_at 0 lessThanFourSecs))) = 4000.
Proof.
  assert (Q : quiet untouched) by (intros t s; reflexivity).
  split; [exact Q | ].
  apply (ledToggle_blinks_steadily untouched
           (world_at 0 lessThanFourSecs) 5 Q).
Defined.

(** ** The calls of the two tasks in the running system *)

Lemma ledToggle_pass_calls : calls_satisfy ledToggle_call ledToggle_pass.
Proof.
  split; [intros v; exact I | ].
  intros v. destruct v; cbn; intuition.
Qed.

Lemma buttonCheck_pass_calls :
  calls_satisfy buttonCheck_call buttonCheck_pass.
Proof.
  split; [intros v; exact I | ].
  intros a. destruct a; cbn; [ | intuition].
  split; [reflexivity | ]. split; [intros v; exact I | ].
  intros b. destruct b; cbn; [ | intuition].
  split; [reflexivity | ]. split; [intros v; exact I | ].
  intros c. destruct c; cbn; intuition.
Qed.

Lemma disciplined_boot pins0 : disciplined pins0 (boot pins0).
Proof.
  constructor; cbn; try exact I; try reflexivity.
  intros t h e [].
Qed.

Lemma set_latch_other port pin v l port' pin' :
  port = PORT_0 -> pin = PIN0 ->
  port' <> PORT_0 \/ pin' <> PIN0 ->
  set_latch port pin v l port' pin' = l port' pin'.
Proof.
  intros -> -> H. unfold set_latch.
  destruct port', pin'; cbn; try reflexivity.
  destruct H as [H | H]; contradiction H; reflexivity.
Qed.

Lemma ledToggle_write_line port pin v :
  ledToggle_call (EvWrite port pin v) -> port = PORT_0 /\ pin = PIN0.
Proof. destruct port, pin; cbn; intuition. Qed.

Ltac past_call P L1 :=
  let t := fresh "t" in
  let h := fresh "h" in
  let e := fresh "e" in
  let He := fresh "He" in
  intros t h e [He | He];
  [ injection He as <- <- <-; cbn;
    first [exact I | solve [apply L1] | solve [apply L1; constructor]]
  | apply (P t h e He) ].

Lemma disciplined_run signal pins0 h s s' :
  sound s -> disciplined pins0 s ->
  run_task signal h s = Some s' -> disciplined pins0 s'.
Proof.
  intros Hs [L B P O] Hrun. unfold run_task in Hrun.
  destruct (wake (tcb h s) <=? ticks s); [ | discriminate].
  pose proof (led_is_ledToggle s Hs) as Hl.
  pose proof (button_is_buttonCheck s Hs) as Hb.
  destruct h; cbn [tcb] in Hrun.
  - destruct (code (led_task s)) eqn:Hc; cbn in L;
      inversion Hrun; subst; clear Hrun.
    + constructor; cbn; rewrite ?Hl; auto using ledToggle_pass_calls.
    + destruct L as [L1 _]. contradiction (L1 PIN_IS_LOW).
    + destruct L as [L1 L2]. constructor; cbn; auto; try past_call P L1.
      intros port' pin' Hne.
      destruct (ledToggle_write_line port pin v L1) as [-> ->].
      rewrite set_latch_other by auto. apply O. exact Hne.
    + destruct L as [L1 L2]. constructor; cbn; auto; past_call P L1.
    + destruct L as [L1 L2]. constructor; cbn; auto; past_call P L1.
    + destruct L as [L1 _]. contradiction.
  - destruct (code (button_task s)) eqn:Hc; cbn in B;
      inversion Hrun; subst; clear Hrun.
    + constructor; cbn; rewrite ?Hb; auto using buttonCheck_pass_calls.
    + destruct B as [B1 B2]. constructor; cbn; auto; past_call P B1.
    + destruct B as [B1 B2]. destruct port, pin; contradiction.
    + destruct B as [B1 B2]. constructor; cbn; auto; past_call P B1.
    + destruct B as [B1 _]. contradiction (B1 lessThanTwoSecs).
    + destruct B as [B1 B2]. constructor; cbn; auto; past_call P B1.
Qed.

Lemma disciplined_sys_run signal pins0 ms s s' :
  reachable signal s -> disciplined pins0 s ->
  sys_run signal ms s = Some s' -> disciplined pins0 s'.
Proof.
  revert s. induction ms as [|m ms IH]; intros s Hr Hd Hrun; cbn in Hrun.
  - injection Hrun as <-. exact Hd.
  - destruct (sys_move signal m s) as [s1|] eqn:Hm; [ | discriminate].
    apply (IH s1); [ | | exact Hrun].
    + eapply reachable_step; [exact Hr | exists m; exact Hm].
    + destruct m as [|h]; cbn in Hm.
      * injection Hm as <-. destruct Hd as [L B P O].
        constructor; assumption.
      * eapply disciplined_run;
          [apply (sound_reachable signal s Hr) | exact Hd | exact Hm].
Qed.

(** X7. Who touches what.  In the running system, under any scheduling,
    [ledToggle] only reads the global, writes the LED line (PORT_0,
    PIN0) and delays for 400 or 100 ticks; [buttonCheck] only reads the
    button line (PORT_0, PIN1), delays for 2000 ticks and writes the
    global.  Every line other than the LED line keeps the level it had
    when the scheduler was started. *)
Theorem tasks_keep_to_their_lines
  (signal : portX_t -> pinX_t -> Z -> pinState_t)
  (pins0 : portX_t -> pinX_t -> pinState_t) (ms : list move) (s : system) :
  sys_run signal ms (boot pins0) = Some s ->
  (forall t e, In (t, ledToggleHandler, e) (history s) ->
     match e with
     | EvGet _ => True
     | EvWrite port pin _ => port = PORT_0 /\ pin = PIN0
     | EvDelay n => n = 400 \/ n = 100
     | EvRead _ _ _ | EvSet _ => False
     end) /\
  (forall t e, In (t, buttonCheckHandler, e) (history s) ->
     match e with
     | EvRead port pin _ => port = PORT_0 /\ pin = PIN1
     | EvDelay n => n = 2000
     | EvSet _ => True
     | EvWrite _ _ _ | EvGet _ => False
     end) /\
  (forall port pin, port <> PORT_0 \/ pin <> PIN0 ->
     pins s port pin = pins0 port pin).
Proof.
  intros Hrun.
  destruct (disciplined_sys_run signal pins0 ms (boot pins0) s
              (reachable_boot signal pins0) (disciplined_boot pins0) Hrun)
    as [_ _ P O].
  split; [ | split; [ | exact O]].
  - intros t e He. specialize (P t ledToggleHandler e He). cbn in P.
    destruct e as [port pin v | port pin v | n | v | v]; cbn in P;
      try exact P; try exact I.
    destruct port, pin; cbn in P; intuition.
  - intros t e He. specialize (P t buttonCheckHandler e He). cbn in P.
    destruct e as [port pin v | port pin v | n | v | v]; cbn in P;
      try exact P; try exact I.
    destruct port, pin; cbn in P; intuition.
Qed.

Lemma tasks_keep_to_their_lines_witness :
  sys_run down_until_3000 schedule_to_cooldown (boot all_low) =
    Some cooldown_state /\
  pins cooldown_state PORT_0 PIN1 = all_low PORT_0 PIN1.
Proof.
  assert (H : sys_run down_until_3000 schedule_to_cooldown (boot all_low) =
              Some cooldown_state) by (vm_compute; reflexivity).
  split; [exact H | ].
  apply (tasks_keep_to_their_lines down_until_3000 all_low
           schedule_to_cooldown cooldown_state H).
  right. discriminate.
Defined.

(** ** The two tasks under priority scheduling *)

Lemma priority_run_sys_run signal ms s s' :
  priority_run signal ms s = Some s' -> sys_run signal ms s = Some s'.
Proof.
  revert s. induction ms as [|m ms IH]; intros s Hrun; cbn in *.
  - exact Hrun.
  - destruct (permitted m s); [ | discriminate].
    destruct (sys_move signal m s) as [s1|]; [ | discriminate].
    apply IH. exact Hrun.
Qed.

Lemma ranked_boot pins0 : ranked (boot pins0).
Proof. constructor; cbn; try reflexivity; lia. Qed.

Lemma ranked_move signal m s s' :
  ranked s -> sys_move signal m s = Some s' -> ranked s'.
Proof.
  intros [L B C] Hm. destruct m as [|h]; cbn in Hm.
  - injection Hm as <-. constructor; cbn; try assumption; lia.
  - unfold run_task in Hm.
    destruct (wake (tcb h s) <=? ticks s); [ | discriminate].
    destruct h; cbn [tcb] in Hm;
      [ destruct (code (led_task s)) | destruct (code (button_task s)) ];
      inversion Hm; subst; constructor; cbn; assumption.
Qed.

Lemma ranked_sys_run signal ms s s' :
  ranked s -> sys_run signal ms s = Some s' -> ranked s'.
Proof.
  revert s. induction ms as [|m ms IH]; intros s Hr Hrun; cbn in Hrun.
  - injection Hrun as <-. exact Hr.
  - destruct (sys_move signal m s) as [s1|] eqn:Hm; [ | discriminate].
    apply (IH s1); [ | exact Hrun]. eapply ranked_move; eassumption.
Qed.

Lemma never_halts_not_Halt (p : task unit) :
  never_halts p -> is_Halt p = false.
Proof. destruct p; cbn; intros H; try reflexivity. contradiction. Qed.

(** X8. Who runs when.  Under priority scheduling, with the priorities
    given in [main] (1 for [ledToggle], 2 for [buttonCheck]),
    [ledToggle] may be given the processor exactly in the states in
    which [buttonCheck] is blocked in a delay, and [buttonCheck] is never
    kept waiting by [ledToggle]. *)
Theorem ledToggle_runs_while_buttonCheck_waits
  (signal : portX_t -> pinX_t -> Z -> pinState_t)
  (pins0 : portX_t -> pinX_t -> pinState_t) (ms : list move) (s : system) :
  priority_run signal ms (boot pins0) = Some s ->
  (may_run ledToggleHandler s = true <-> ticks s < wake (button_task s)) /\
  may_run buttonCheckHandler s = true.
Proof.
  intros Hrun. apply priority_run_sys_run in Hrun.
  pose proof (ranked_sys_run signal ms (boot pins0) s
                (ranked_boot pins0) Hrun) as [Pl Pb _].
  pose proof (sound_reachable signal s
                (sys_run_reachable signal ms (boot pins0) s
                   (reachable_boot signal pins0) Hrun)) as Hs.
  pose proof (never_halts_not_Halt _ (button_never_halts s Hs)) as Hh.
  unfold may_run, ready. cbn [other_task tcb].
  rewrite Pl, Pb, Hh. cbn.
  rewrite !andb_true_r. split.
  - destruct (Z.leb_spec (wake (button_task s)) (ticks s)); cbn;
      split; intros; try lia; try discriminate; reflexivity.
  - rewrite andb_false_r. reflexivity.
Qed.

Lemma ledToggle_runs_while_buttonCheck_waits_witness :
  priority_run down_until_3000 schedule_to_cooldown (boot all_low) =
    Some cooldown_state /\
  may_run ledToggleHandler cooldown_state = true /\
  may_run buttonCheckHandler cooldown_state = true.
Proof.
  assert (H : priority_run down_until_3000 schedule_to_cooldown
                (boot all_low) = Some cooldown_state)
    by (vm_compute; reflexivity).
  split; [exact H | ]. split; [reflexivity | ].
  apply (ledToggle_runs_while_buttonCheck_waits down_until_3000 all_low
           schedule_to_cooldown cooldown_state H).
Defined.

Lemma buttonCheck_pass_never_blocks_when_idle :
  never_blocks_when_idle buttonCheck_pass.
Proof.
  intros a Ha. rewrite (Ha eq_refl eq_refl). cbn. exact I.
Qed.

Lemma starved_boot pins0 : starved pins0 (boot pins0).
Proof.
  constructor; cbn; try reflexivity; try exact I.
  intros t e [].
Qed.

Lemma starved_move signal pins0 m s s' :
  (forall t, signal PORT_0 PIN1 t = PIN_IS_HIGH) ->
  sound s -> ranked s -> disciplined pins0 s -> starved pins0 s ->
  permitted m s = true -> sys_move signal m s = Some s' ->
  starved pins0 s'.
Proof.
  intros Hidle Hs [Pl Pb Pc] [_ Db _ _] [Sp Sw Sl Sh So] Hp Hm.
  destruct m as [|h]; cbn in Hm, Hp.
  - injection Hm as <-. constructor; assumption.
  - destruct h.
    + exfalso. unfold may_run, ready in Hp. cbn [other_task tcb] in Hp.
      rewrite Pl, Pb, Sw in Hp.
      rewrite (never_halts_not_Halt _ (button_never_halts s Hs)) in Hp.
      destruct (Z.leb_spec 0 (ticks s)); [ | lia].
      cbn in Hp. discriminate.
    + pose proof (button_is_buttonCheck s Hs) as Hb.
      unfold run_task in Hm. cbn [tcb] in Hm.
      destruct (wake (button_task s) <=? ticks s); [ | discriminate].
      destruct (code (button_task s)) eqn:Hc; cbn in Sp, Db;
        try contradiction; inversion Hm; subst; clear Hm.
      * constructor; cbn; rewrite ?Hb; try assumption.
        apply buttonCheck_pass_never_blocks_when_idle.
      * destruct Db as [Db _].
        assert (Hline : port = PORT_0 /\ pin = PIN1).
        { specialize (Db PIN_IS_LOW). destruct port, pin; cbn in Db;
            try contradiction; split; reflexivity. }
        destruct Hline as [-> ->].
        constructor; cbn; try assumption.
        -- apply Sp. intros _ _. apply Hidle.
        -- intros tk ev [He | He]; [discriminate He | apply (Sh tk ev He)].
      * destruct Db as [Db _]. destruct port, pin; contradiction.
      * destruct Db as [Db _]. contradiction (Db lessThanTwoSecs).
      * constructor; cbn; try assumption.
        intros tk ev [He | He]; [discriminate He | apply (Sh tk ev He)].
Qed.

Lemma starved_priority_run signal pins0 ms s s' :
  (forall t, signal PORT_0 PIN1 t = PIN_IS_HIGH) ->
  reachable signal s -> ranked s -> disciplined pins0 s ->
  starved pins0 s ->
  priority_run signal ms s = Some s' ->
  starved pins0 s' /\ ranked s' /\ sound s'.
Proof.
  intros Hidle. revert s.
  induction ms as [|m ms IH]; intros s Hr Hk Hd Hst Hrun; cbn in Hrun.
  - injection Hrun as <-.
    split; [exact Hst | split; [exact Hk | ]].
    apply (sound_reachable signal s Hr).
  - destruct (permitted m s) eqn:Hp; [ | discriminate].
    destruct (sys_move signal m s) as [s1|] eqn:Hm; [ | discriminate].
    apply (IH s1); [ | | | | exact Hrun].
    + eapply reachable_step; [exact Hr | exists m; exact Hm].
    + eapply ranked_move; eassumption.
    + apply (disciplined_sys_run signal pins0 [m] s s1 Hr Hd).
      cbn. rewrite Hm. reflexivity.
    + eapply starved_move; try eassumption.
      apply (sound_reachable signal s Hr).
Qed.

(** X9. The blink driver starves while the button is up.  Under
    priority scheduling, with the button line never reading pressed,
    [buttonCheck] never calls a delay and so is always ready; [ledToggle],
    of lower priority, is never given the processor: it has made no call,
    the lines are as they were when the scheduler was started, and it may
    not run in the state reached. *)
Theorem ledToggle_starves_while_button_is_up
  (signal : portX_t -> pinX_t -> Z -> pinState_t)
  (pins0 : portX_t -> pinX_t -> pinState_t) (ms : list move) (s : system) :
  (forall t, signal PORT_0 PIN1 t = PIN_IS_HIGH) ->
  priority_run signal ms (boot pins0) = Some s ->
  (forall t e, ~ In (t, ledToggleHandler, e) (history s)) /\
  (forall port pin, pins s port pin = pins0 port pin) /\
  wake (button_task s) <= ticks s /\
  may_run ledToggleHandler s = false.
Proof.
  intros Hidle Hrun.
  destruct (starved_priority_run signal pins0 ms (boot pins0) s Hidle
              (reachable_boot signal pins0) (ranked_boot pins0)
              (disciplined_boot pins0) (starved_boot pins0) Hrun)
    as ([Sp Sw Sl Sh So] & [Pl Pb Pc] & Hs).
  split; [exact Sh | ]. split; [exact So | ]. split; [lia | ].
  unfold may_run, ready. cbn [other_task tcb].
  rewrite Pl, Pb, Sw.
  rewrite (never_halts_not_Halt _ (button_never_halts s Hs)).
  destruct (Z.leb_spec 0 (ticks s)); [reflexivity | lia].
Qed.

Lemma ledToggle_starves_while_button_is_up_witness :
  (forall t, released_line PORT_0 PIN1 t = PIN_IS_HIGH) /\
  priority_run released_line idle_schedule (boot all_low) =
    Some idle_state /\
  ticks idle_state = 2 /\
  may_run ledToggleHandler idle_state = false.
Proof.
  assert (Hidle : forall t, released_line PORT_0 PIN1 t = PIN_IS_HIGH)
    by (intros t; reflexivity).
  assert (H : priority_run released_line idle_schedule (boot all_low) =
              Some idle_state) by (vm_compute; reflexivity).
  split; [exact Hidle | ]. split; [exact H | ]. split; [reflexivity | ].
  apply (ledToggle_starves_while_button_is_up released_line all_low
           idle_schedule idle_state Hidle H).
Defined.

(** As soon as the button is found pressed [buttonCheck] blocks and
    [ledToggle] runs: the schedule [schedule_to_cooldown] respects the
    priorities. *)
Example ledToggle_runs_once_button_is_down :
  priority_run down_until_3000 schedule_to_cooldown (boot all_low) =
    Some cooldown_state /\
  priority_run down_until_3000 [Run ledToggleHandler] (boot all_low) = None.
Proof. split; vm_compute; reflexivity. Qed.

(** ** The tasks [main] creates *)

Lemma main_after_creation H :
  main H 3 =
    mkMain at_vTaskStartScheduler
      ((if fits_ledToggle H then [create_ledToggle] else []) ++
       (if fits_buttonCheck H then [create_buttonCheck] else [])).
Proof.
  cbn. unfold main_step, xTaskCreate. cbn.
  destruct (fits_ledToggle H), (fits_buttonCheck H); reflexivity.
Qed.

Lemma main_created_frozen H n :
  created (main H (3 + n)) = created (main H 3).
Proof.
  induction n as [|n IH].
  - reflexivity.
  - replace (3 + S n)%nat with (S (3 + n))%nat by lia.
    change (main H (S (3 + n))) with (main_step H (main H (3 + n))).
    rewrite <- IH. unfold main_step.
    destruct n as [|n].
    + rewrite main_after_creation. reflexivity.
    + replace (3 + S n)%nat with (4 + n)%nat by lia.
      rewrite main_pc_after_start.
      destruct (fits_idle H); reflexivity.
Qed.

(** X10. Failed creations go unnoticed.  [main] does not look at what
    [xTaskCreate] returns: whatever room the heap has, after its third
    step it is about to start the scheduler, and from then on the tasks
    created are, in this order, [ledToggle] when the heap had room for it
    and [buttonCheck] when the heap had room for it, each at most once;
    the list may be empty. *)
Theorem main_ignores_failed_creations (H : heap_t) (n : nat) :
  pc (main H 3) = at_vTaskStartScheduler /\
  created (main H (3 + n)) =
    (if fits_ledToggle H then [create_ledToggle] else []) ++
    (if fits_buttonCheck H then [create_buttonCheck] else []).
Proof.
  split.
  - rewrite main_after_creation. reflexivity.
  - rewrite main_created_frozen, main_after_creation. reflexivity.
Qed.

Example main_with_no_room :
  main (mkHeap false false true) 1000 = mkMain in_scheduler [].
Proof. reflexivity. Qed.

(** ** The passes of [ledToggle] in the running system *)

Lemma log_leaves_app l1 l2 due left :
  log_leaves (l1 ++ l2) due left <->
  exists mid, log_leaves l1 due mid /\ log_leaves l2 mid left.
Proof.
  revert due. induction l1 as [|e l1 IH]; intros due; cbn.
  - split.
    + intros H. exists due. split; [reflexivity | exact H].
    + intros (mid & -> & H). exact H.
  - destruct due as [|x due'].
    + destruct e; try (split; [intros [] | intros (mid & [] & _)]).
      apply IH.
    + split.
      * intros [-> H]. apply IH in H. destruct H as (mid & H1 & H2).
        exists mid. auto.
      * intros (mid & [-> H1] & H2). split; [reflexivity | ].
        apply IH. exists mid. auto.
Qed.

Lemma straight_no_get p : Forall (fun e => is_get e = false) (straight p).
Proof.
  induction p; cbn; try constructor; try reflexivity; assumption.
Qed.

Lemma log_leaves_no_get l due left :
  Forall (fun e => is_get e = false) due ->
  log_leaves l due left ->
  Forall (fun e => is_get e = false) left.
Proof.
  revert due. induction l as [|e l IH]; intros due Hdue H; cbn in H.
  - subst. exact Hdue.
  - destruct due as [|x due'].
    + destruct e; try contradiction.
      apply (IH _ (straight_no_get _) H).
    + destruct H as [_ H]. inversion Hdue; subst. apply (IH _ H3 H).
Qed.

(** Between two reads of the global the log holds what was due after the
    first. *)
Lemma log_leaves_between m v r due left :
  Forall (fun e => is_get e = false) m ->
  Forall (fun e => is_get e = false) due ->
  log_leaves (m ++ EvGet v :: r) due left ->
  m = due.
Proof.
  revert due. induction m as [|e m IH]; intros due Hm Hdue H; cbn in H.
  - destruct due as [|x due']; [reflexivity | ].
    destruct H as [<- _]. inversion Hdue; subst. discriminate.
  - inversion Hm; subst.
    destruct due as [|x due'].
    + destruct e; try contradiction. discriminate.
    + destruct H as [<- H]. inversion Hdue; subst.
      f_equal. apply (IH due'); assumption.
Qed.

Lemma calls_by_cons_same h t e hist :
  calls_by h ((t, h, e) :: hist) = calls_by h hist ++ [(t, e)].
Proof. cbn. destruct h; reflexivity. Qed.

Lemma calls_by_cons_other h t e hist :
  calls_by h ((t, other_task h, e) :: hist) = calls_by h hist.
Proof. cbn. destruct h; reflexivity. Qed.

Lemma after_read_straight v : straight_only (after_read v).
Proof. destruct v; cbn; exact I. Qed.

Lemma ledToggle_pass_is_switch :
  ledToggle_pass = GetState after_read.
Proof. reflexivity. Qed.

Lemma paced_boot pins0 : paced (boot pins0).
Proof. constructor; cbn; [right; exact I | reflexivity]. Qed.

Lemma log_leaves_snoc l e due :
  log_leaves l [] (e :: due) -> is_get e = false ->
  log_leaves (l ++ [e]) [] due.
Proof.
  intros H He. apply log_leaves_app. exists (e :: due).
  split; [exact H | ]. cbn. auto.
Qed.

Lemma paced_run signal h s s' :
  sound s -> paced s -> run_task signal h s = Some s' -> paced s'.
Proof.
  intros Hs [P L] Hrun. unfold run_task in Hrun.
  destruct (wake (tcb h s) <=? ticks s); [ | discriminate].
  pose proof (led_is_ledToggle s Hs) as Hl.
  destruct h; cbn [tcb] in Hrun.
  - destruct (code (led_task s)) eqn:Hc; inversion Hrun; subst; clear Hrun;
      constructor; cbn [advance led_task code history map app tcb];
      rewrite ?calls_by_cons_same, ?actions_app.
    + left. exact Hl.
    + rewrite Hl. exact L.
    + destruct P as [P | []]. rewrite ledToggle_pass_is_switch in P.
      discriminate.
    + destruct P as [P | []]. rewrite ledToggle_pass_is_switch in P.
      discriminate.
    + right. destruct P as [P | P]; [ | exact P].
      rewrite ledToggle_pass_is_switch in P. discriminate.
    + apply log_leaves_snoc; [exact L | reflexivity].
    + right. destruct P as [P | P]; [ | exact P].
      rewrite ledToggle_pass_is_switch in P. discriminate.
    + apply log_leaves_snoc; [exact L | reflexivity].
    + right. destruct P as [P | []].
      rewrite ledToggle_pass_is_switch in P. injection P as ->.
      apply after_read_straight.
    + destruct P as [P | []].
      rewrite ledToggle_pass_is_switch in P. injection P as ->.
      apply log_leaves_app. exists []. split; [exact L | ].
      cbn. reflexivity.
    + right. destruct P as [P | P]; [ | exact P].
      rewrite ledToggle_pass_is_switch in P. discriminate.
    + apply log_leaves_snoc; [exact L | reflexivity].
  - destruct (code (button_task s)) eqn:Hc; inversion Hrun; subst;
      clear Hrun; constructor; cbn [advance led_task code history map app];
      try exact P;
      try (rewrite (calls_by_cons_other ledToggleHandler)); exact L.
Qed.

Lemma paced_sys_run signal ms s s' :
  reachable signal s -> paced s ->
  sys_run signal ms s = Some s' -> paced s'.
Proof.
  revert s. induction ms as [|m ms IH]; intros s Hr Hp Hrun; cbn in Hrun.
  - injection Hrun as <-. exact Hp.
  - destruct (sys_move signal m s) as [s1|] eqn:Hm; [ | discriminate].
    apply (IH s1); [ | | exact Hrun].
    + eapply reachable_step; [exact Hr | exists m; exact Hm].
    + destruct m as [|h]; cbn in Hm.
      * injection Hm as <-. destruct Hp as [P L].
        constructor; assumption.
      * eapply paced_run;
          [apply (sound_reachable signal s Hr) | exact Hp | exact Hm].
Qed.

Lemma pass_between_reads signal pins0 ms s pre s1 v1 mid s2 v2 post :
  sys_run signal ms (boot pins0) = Some s ->
  calls_by ledToggleHandler (history s) =
    pre ++ (s1, EvGet v1) :: mid ++ (s2, EvGet v2) :: post ->
  (forall e, In e (actions mid) -> is_get e = false) ->
  actions mid = straight (after_read v1).
Proof.
  intros Hrun Hsplit Hmid.
  pose proof (paced_sys_run signal ms (boot pins0) s
                (reachable_boot signal pins0) (paced_boot pins0) Hrun)
    as [_ L].
  rewrite Hsplit in L. unfold actions in L.
  rewrite map_app in L. cbn [map] in L. rewrite map_app in L.
  cbn [map snd] in L.
  apply log_leaves_app in L. destruct L as (r1 & L1 & L2).
  pose proof (log_leaves_no_get _ _ _ (Forall_nil _) L1) as Hr1.
  cbn [log_leaves] in L2.
  destruct r1 as [|x r1].
  - apply (log_leaves_between _ v2 (map snd post) _ _
             (proj2 (Forall_forall _ _) Hmid) (straight_no_get _) L2).
  - destruct L2 as [<- _]. inversion Hr1; subst. discriminate.
Qed.

(** C6, amended.  In the running system, under any scheduling, take two
    successive reads of the global by [ledToggle], of [v1] at tick [s1]
    and of [v2] at tick [s2].  Between them [ledToggle] makes the calls
    of the pattern of [v1], whatever [buttonCheck] writes meanwhile.
    When these calls are made with no wait for the processor, each at the
    tick at which the call before it is over, the second read comes
    [period v1] ticks after the first: a change of the global at a tick
    [c] of the pass is read at most [period v1] ticks after [c], that is
    at most 800 ticks after [lessThanFourSecs] was read, at most 200
    after [moreThanFourSecs], and with no delay after
    [lessThanTwoSecs]. *)
Theorem staleness_bounded_when_served
  (signal : portX_t -> pinX_t -> Z -> pinState_t)
  (pins0 : portX_t -> pinX_t -> pinState_t) (ms : list move) (s : system)
  (pre mid post : list stamped) (s1 s2 : Z) (v1 v2 : pushButtonStates) :
  sys_run signal ms (boot pins0) = Some s ->
  calls_by ledToggleHandler (history s) =
    pre ++ (s1, EvGet v1) :: mid ++ (s2, EvGet v2) :: post ->
  (forall e, In e (actions mid) -> is_get e = false) ->
  actions mid =
    match v1 with
    | lessThanTwoSecs =>
        [EvWrite PORT_0 PIN0 PIN_IS_LOW]
    | lessThanFourSecs =>
        [EvWrite PORT_0 PIN0 PIN_IS_HIGH; EvDelay 400;
         EvWrite PORT_0 PIN0 PIN_IS_LOW; EvDelay 400]
    | moreThanFourSecs =>
        [EvWrite PORT_0 PIN0 PIN_IS_HIGH; EvDelay 100;
         EvWrite PORT_0 PIN0 PIN_IS_LOW; EvDelay 100]
    end /\
  (prompt ((s1, EvGet v1) :: mid ++ [(s2, EvGet v2)]) ->
   s2 = s1 + period v1 /\
   period v1 <= 800 /\
   forall c, s1 <= c <= s2 -> s2 - c <= period v1).
Proof.
  intros Hrun Hsplit Hmid.
  pose proof (pass_between_reads signal pins0 ms s pre s1 v1 mid s2 v2 post
                Hrun Hsplit Hmid) as Hact.
  split; [rewrite Hact; destruct v1; reflexivity | ].
  intros Hp.
  assert (Hs2 : s2 = s1 + period v1).
  { destruct v1; cbn in Hact.
    - destruct mid as [|[ta ea] [|[tb eb] mid]]; cbn in Hact;
        try discriminate.
      injection Hact as ->. cbn in Hp |- *. lia.
    - destruct mid as [|[ta ea] [|[tb eb] [|[tc ec] [|[td ed]
                       [|[te ee] mid]]]]]; cbn in Hact; try discriminate.
      injection Hact as -> -> -> ->. cbn in Hp |- *. lia.
    - destruct mid as [|[ta ea] [|[tb eb] [|[tc ec] [|[td ed]
                       [|[te ee] mid]]]]]; cbn in Hact; try discriminate.
      injection Hact as -> -> -> ->. cbn in Hp |- *. lia. }
  split; [exact Hs2 | ].
  split; [destruct v1; cbn; lia | ].
  intros c Hc. lia.
Qed.

Lemma staleness_bounded_when_served_witness :
  priority_run (level two_presses) staleness_schedule (boot all_low) =
    Some staleness_state /\
  In (10000, buttonCheckHandler, EvSet moreThanFourSecs)
     (history staleness_state) /\
  calls_by ledToggleHandler (history staleness_state) =
    staleness_before ++
    (9600, EvGet lessThanFourSecs) ::
    [(9600, EvWrite PORT_0 PIN0 PIN_IS_HIGH); (9600, EvDelay 400);
     (10000, EvWrite PORT_0 PIN0 PIN_IS_LOW); (10000, EvDelay 400)] ++
    (10400, EvGet moreThanFourSecs) :: [] /\
  10400 = 9600 + period lessThanFourSecs /\
  10400 - 10000 <= period lessThanFourSecs.
Proof.
  assert (Hrun : priority_run (level two_presses) staleness_schedule
                   (boot all_low) = Some staleness_state)
    by (vm_compute; reflexivity).
  assert (Hsplit :
            calls_by ledToggleHandler (history staleness_state) =
              staleness_before ++
              (9600, EvGet lessThanFourSecs) ::
              [(9600, EvWrite PORT_0 PIN0 PIN_IS_HIGH); (9600, EvDelay 400);
               (10000, EvWrite PORT_0 PIN0 PIN_IS_LOW);
               (10000, EvDelay 400)] ++
              (10400, EvGet moreThanFourSecs) :: [])
    by (vm_compute; reflexivity).
  split; [exact Hrun | ].
  split; [vm_compute; tauto | ].
  split; [exact Hsplit | ].
  destruct (staleness_bounded_when_served (level two_presses) all_low
              staleness_schedule staleness_state
              staleness_before
              [(9600, EvWrite PORT_0 PIN0 PIN_IS_HIGH); (9600, EvDelay 400);
               (10000, EvWrite PORT_0 PIN0 PIN_IS_LOW);
               (10000, EvDelay 400)]
              [] 9600 10400 lessThanFourSecs moreThanFourSecs
              (priority_run_sys_run _ _ _ _ Hrun) Hsplit)
    as [_ Hbound].
  - intros e He. simpl in He.
    destruct He as [<- | [<- | [<- | [<- | []]]]]; reflexivity.
  - destruct Hbound as (H1 & _ & H3).
    + simpl. repeat split; reflexivity.
    + split; [exact H1 | ]. apply H3. lia.
Defined.

(** ** [ledToggle] once the button is up again *)

Lemma frozen_move signal pins0 T s0 m s s' :
  (forall t, T <= t -> signal PORT_0 PIN1 t = PIN_IS_HIGH) ->
  sound s -> ranked s -> disciplined pins0 s -> frozen T s0 s ->
  permitted m s = true -> sys_move signal m s = Some s' ->
  frozen T s0 s'.
Proof.
  intros Hidle Hs [Pl Pb Pc] [_ Db _ _] [Fp Fw Fc Fl Fh Fo] Hp Hm.
  destruct m as [|h]; cbn in Hm, Hp.
  - injection Hm as <-. constructor; cbn; try assumption; lia.
  - destruct h.
    + exfalso. unfold may_run, ready in Hp. cbn [other_task tcb] in Hp.
      rewrite Pl, Pb in Hp.
      rewrite (never_halts_not_Halt _ (button_never_halts s Hs)) in Hp.
      destruct (Z.leb_spec (wake (button_task s)) (ticks s)); [ | lia].
      cbn in Hp. discriminate.
    + pose proof (button_is_buttonCheck s Hs) as Hb.
      unfold run_task in Hm. cbn [tcb] in Hm.
      destruct (wake (button_task s) <=? ticks s); [ | discriminate].
      destruct (code (button_task s)) eqn:Hc; cbn in Fp, Db;
        try contradiction; inversion Hm; subst; clear Hm.
      * constructor; cbn; rewrite ?Hb; try assumption.
        apply buttonCheck_pass_never_blocks_when_idle.
      * destruct Db as [Db _].
        assert (Hline : port = PORT_0 /\ pin = PIN1).
        { specialize (Db PIN_IS_LOW). destruct port, pin; cbn in Db;
            try contradiction; split; reflexivity. }
        destruct Hline as [-> ->].
        constructor; cbn; try assumption.
        apply Fp. intros _ _. apply Hidle. exact Fc.
      * destruct Db as [Db _]. destruct port, pin; contradiction.
      * destruct Db as [Db _]. contradiction (Db lessThanTwoSecs).
      * constructor; cbn; assumption.
Qed.

Lemma frozen_priority_run signal pins0 T s0 ms s s' :
  (forall t, T <= t -> signal PORT_0 PIN1 t = PIN_IS_HIGH) ->
  reachable signal s -> ranked s -> disciplined pins0 s ->
  frozen T s0 s ->
  priority_run signal ms s = Some s' ->
  frozen T s0 s' /\ ranked s' /\ sound s'.
Proof.
  intros Hidle. revert s.
  induction ms as [|m ms IH]; intros s Hr Hk Hd Hf Hrun; cbn in Hrun.
  - injection Hrun as <-.
    split; [exact Hf | split; [exact Hk | ]].
    apply (sound_reachable signal s Hr).
  - destruct (permitted m s) eqn:Hp; [ | discriminate].
    destruct (sys_move signal m s) as [s1|] eqn:Hm; [ | discriminate].
    apply (IH s1); [ | | | | exact Hrun].
    + eapply reachable_step; [exact Hr | exists m; exact Hm].
    + eapply ranked_move; eassumption.
    + apply (disciplined_sys_run signal pins0 [m] s s1 Hr Hd).
      cbn. rewrite Hm. reflexivity.
    + eapply frozen_move; try eassumption.
      apply (sound_reachable signal s Hr).
Qed.

(** X11. The blink driver stops where it is once the button is up.
    Under priority scheduling, take a state [s0] in which [buttonCheck]
    is ready and on a path of its loop with no delay as long as the
    button is up (at the top of the loop, or about to write
    [lessThanTwoSecs]), the button staying up from then on.  In every
    state reached from [s0], [ledToggle] has made no further call, is
    where it was in [s0], the lines are as in [s0], and it may not run:
    an LED that was on in [s0] stays on. *)
Theorem ledToggle_frozen_once_button_is_up
  (signal : portX_t -> pinX_t -> Z -> pinState_t)
  (pins0 : portX_t -> pinX_t -> pinState_t) (ms0 ms : list move)
  (s0 s : system) :
  priority_run signal ms0 (boot pins0) = Some s0 ->
  (forall t, ticks s0 <= t -> signal PORT_0 PIN1 t = PIN_IS_HIGH) ->
  never_blocks_when_idle (code (button_task s0)) ->
  wake (button_task s0) <= ticks s0 ->
  priority_run signal ms s0 = Some s ->
  led_task s = led_task s0 /\
  calls_by ledToggleHandler (history s) =
    calls_by ledToggleHandler (history s0) /\
  (forall port pin, pins s port pin = pins s0 port pin) /\
  may_run ledToggleHandler s = false.
Proof.
  intros Hrun0 Hidle Hspin Hwake Hrun.
  apply priority_run_sys_run in Hrun0.
  pose proof (sys_run_reachable signal ms0 (boot pins0) s0
                (reachable_boot signal pins0) Hrun0) as Hr0.
  pose proof (ranked_sys_run signal ms0 (boot pins0) s0
                (ranked_boot pins0) Hrun0) as Hk0.
  pose proof (disciplined_sys_run signal pins0 ms0 (boot pins0) s0
                (reachable_boot signal pins0) (disciplined_boot pins0)
                Hrun0) as Hd0.
  assert (Hf0 : frozen (ticks s0) s0 s0)
    by (constructor; try assumption; try reflexivity; lia).
  destruct (frozen_priority_run signal pins0 (ticks s0) s0 ms s0 s Hidle
              Hr0 Hk0 Hd0 Hf0 Hrun)
    as ([Fp Fw Fc Fl Fh Fo] & [Pl Pb Pc] & Hs).
  split; [exact Fl | ]. split; [exact Fh | ]. split; [exact Fo | ].
  unfold may_run, ready. cbn [other_task tcb].
  rewrite Pl, Pb.
  rewrite (never_halts_not_Halt _ (button_never_halts s Hs)).
  destruct (Z.leb_spec (wake (button_task s)) (ticks s)); [reflexivity | lia].
Qed.

Lemma ledToggle_frozen_once_button_is_up_witness :
  priority_run down_until_3000 schedule_to_release (boot all_low) =
    Some release_state /\
  shared release_state = lessThanTwoSecs /\
  pins release_state PORT_0 PIN0 = PIN_IS_HIGH /\
  (forall ms s,
     priority_run down_until_3000 ms release_state = Some s ->
     pins s PORT_0 PIN0 = PIN_IS_HIGH /\
     may_run ledToggleHandler s = false).
Proof.
  assert (Hrun : priority_run down_until_3000 schedule_to_release
                   (boot all_low) = Some release_state)
    by (vm_compute; reflexivity).
  split; [exact Hrun | ]. split; [reflexivity | ]. split; [reflexivity | ].
  intros ms s Hms.
  destruct (ledToggle_frozen_once_button_is_up down_until_3000 all_low
              schedule_to_release ms release_state s Hrun) as (_ & _ & Hp & Hm).
  - intros t Ht. simpl in Ht. unfold down_until_3000.
    destruct (Z.leb_spec t 3000); [lia | reflexivity].
  - simpl. exact I.
  - simpl. lia.
  - exact Hms.
  - split; [rewrite Hp; reflexivity | exact Hm].
Defined.
